(** * node-luxafor: the frame encoder, the reply classifier and the timed
      reply arbiter of [lib/luxafor.js], as a shallow embedding.

    The class [Luxafor] keeps a write buffer, fills it byte by byte and hands
    it to the write endpoint; two of its methods subscribe a listener to the
    read endpoint and return a promise.  Pure helpers become functions,
    methods that can throw return a [Result], and the asynchronous part is a
    step function over an explicit [Session] (endpoint, promises, timers). *)

From stdpp Require Import base option list strings.
From Stdlib Require Import ZArith Lia Ascii.

Local Open Scope Z_scope.

(** ** JavaScript values and outcomes *)

(** The exceptions the embedded code can raise.  [UnrecognizedReply] is the
    [Error] thrown at the end of [findApiReply]; [WaitTimedOut] is the
    failure a timed wait settles with. *)
Inductive JsError : Type :=
| RangeError
| TypeError
| UnrecognizedReply
| WaitTimedOut.

Inductive Result (A : Type) : Type :=
| Ok (a : A)
| Throw (e : JsError).
Arguments Ok {A} a.
Arguments Throw {A} e.

Definition bind {A B : Type} (r : Result A) (k : A -> Result B) : Result B :=
  match r with
  | Ok a => k a
  | Throw e => Throw e
  end.

Notation "'let!' x ':=' r 'in' k" := (bind r (fun x => k))
  (at level 10, x name, r at level 100, k at level 200).

(** A [Buffer] received from the device or stored in the constants: its
    bytes, as integers. *)
Definition Buffer : Type := list Z.

Inductive JsValue : Type :=
| JNull
| JNum (n : Z)
| JBuf (b : Buffer).

(** ** Buffer primitives *)

(** Byte-wise ordering of two byte ranges, as [Buffer.compare] reports it:
    [-1], [0] or [1]. *)
Fixpoint compareBytes (source target : list Z) : Z :=
  match source, target with
  | [], [] => 0
  | [], _ :: _ => -1
  | _ :: _, [] => 1
  | x :: source', y :: target' =>
      if x <? y then -1
      else if y <? x then 1
      else compareBytes source' target'
  end.

Definition slice (b : Buffer) (start stop : nat) : list Z :=
  take (stop - start) (drop start b).

(** [buffer.compare(target, targetStart, targetEnd, sourceStart, sourceEnd)].
    A target that is not a buffer is a [TypeError]; an end offset beyond
    either buffer is a [RangeError]. *)
Definition Buffer_compare (buffer : Buffer) (target : JsValue)
    (targetStart targetEnd sourceStart sourceEnd : nat) : Result Z :=
  match target with
  | JBuf t =>
      if (length t <? targetEnd)%nat || (length buffer <? sourceEnd)%nat
      then Throw RangeError
      else if (sourceEnd <=? sourceStart)%nat
      then Ok (if (targetEnd <=? targetStart)%nat then 0 else -1)
      else if (targetEnd <=? targetStart)%nat
      then Ok 1
      else Ok (compareBytes (slice buffer sourceStart sourceEnd)
                            (slice t targetStart targetEnd))
  | _ => Throw TypeError
  end.

(** [buffer.readUInt8(offset, noAssert)] with [noAssert] set, as the call
    site passes it: no bounds check, [undefined] ([None]) out of range.  That
    is Node before version 10; later versions ignore [noAssert] and raise a
    [RangeError] out of range, so what is proved about frames read this way
    is stated for buffers that have the byte. *)
Definition Buffer_readUInt8 (buffer : Buffer) (offset : nat) : option Z :=
  buffer !! offset.

(** The write buffer.  [new Buffer(size)] allocates without initialising, so
    a cell is [None] until a byte is written to it. *)
Definition WriteBuffer : Type := list (option Z).

Definition Buffer_alloc (size : nat) : WriteBuffer := replicate size None.

(** [buffer.writeUInt8(value, offset)]: the value must fit a byte and the
    offset must lie inside the buffer. *)
Definition Buffer_writeUInt8 (buffer : WriteBuffer) (value : Z) (offset : nat)
    : Result WriteBuffer :=
  if (255 <? value) || (value <? 0) then Throw RangeError
  else if (length buffer <? offset + 1)%nat then Throw RangeError
  else Ok (<[offset := Some value]> buffer).

(** ** The constants object [API] *)

Definition Table : Type := list (string * JsValue).

Inductive ApiEntry : Type :=
| Scalar (v : JsValue)
| Obj (t : Table).

Module COMMAND.
Record t : Type := mk {
  SET_COLOR_SIMPLE : Z;
  SET_COLOR_NO_FADE : Z;
  SET_COLOR_FADE : Z;
  STROBE : Z;
  WAVE : Z;
  PATTERN : Z;
  DEVICE_INFO : Z
}.
End COMMAND.

Module BYTE.
Record t : Type := mk {
  COMMAND : nat;
  LED : nat;
  RED : nat;
  GREEN : nat;
  BLUE : nat;
  TIME : nat;
  STROBE_PADDING : nat;
  STROBE_REPEAT : nat;
  WAVE_TYPE : nat;
  WAVE_PADDING : nat;
  WAVE_REPEAT : nat;
  WAVE_SPEED : nat;
  PATTERN_ID : nat;
  PATTERN_REPEAT : nat
}.
End BYTE.

(** [lib/constants.js] is required by the class but is not among the
    sources, so the object it exports is a parameter of the embedding: the
    two tables read field by field ([API.COMMAND.*], [API.BYTE.*]), the
    reply signatures in their enumeration order, and whatever else the object
    holds ([PID], [VID], [ENDPOINT], ...). *)
Record Api : Type := mkApi {
  API_COMMAND : COMMAND.t;
  API_BYTE : BYTE.t;
  API_REPLY : Table;
  API_rest : list (string * ApiEntry)
}.

Definition COMMAND_table (c : COMMAND.t) : Table :=
  [ ("SET_COLOR_SIMPLE"%string, JNum (COMMAND.SET_COLOR_SIMPLE c));
    ("SET_COLOR_NO_FADE"%string, JNum (COMMAND.SET_COLOR_NO_FADE c));
    ("SET_COLOR_FADE"%string, JNum (COMMAND.SET_COLOR_FADE c));
    ("STROBE"%string, JNum (COMMAND.STROBE c));
    ("WAVE"%string, JNum (COMMAND.WAVE c));
    ("PATTERN"%string, JNum (COMMAND.PATTERN c));
    ("DEVICE_INFO"%string, JNum (COMMAND.DEVICE_INFO c)) ].

Definition BYTE_table (b : BYTE.t) : Table :=
  [ ("COMMAND"%string, JNum (Z.of_nat (BYTE.COMMAND b)));
    ("LED"%string, JNum (Z.of_nat (BYTE.LED b)));
    ("RED"%string, JNum (Z.of_nat (BYTE.RED b)));
    ("GREEN"%string, JNum (Z.of_nat (BYTE.GREEN b)));
    ("BLUE"%string, JNum (Z.of_nat (BYTE.BLUE b)));
    ("TIME"%string, JNum (Z.of_nat (BYTE.TIME b)));
    ("STROBE_PADDING"%string, JNum (Z.of_nat (BYTE.STROBE_PADDING b)));
    ("STROBE_REPEAT"%string, JNum (Z.of_nat (BYTE.STROBE_REPEAT b)));
    ("WAVE_TYPE"%string, JNum (Z.of_nat (BYTE.WAVE_TYPE b)));
    ("WAVE_PADDING"%string, JNum (Z.of_nat (BYTE.WAVE_PADDING b)));
    ("WAVE_REPEAT"%string, JNum (Z.of_nat (BYTE.WAVE_REPEAT b)));
    ("WAVE_SPEED"%string, JNum (Z.of_nat (BYTE.WAVE_SPEED b)));
    ("PATTERN_ID"%string, JNum (Z.of_nat (BYTE.PATTERN_ID b)));
    ("PATTERN_REPEAT"%string, JNum (Z.of_nat (BYTE.PATTERN_REPEAT b))) ].

(** The object as [API[name]] sees it. *)
Definition API_entries (api : Api) : list (string * ApiEntry) :=
  ("COMMAND"%string, Obj (COMMAND_table (API_COMMAND api)))
  :: ("BYTE"%string, Obj (BYTE_table (API_BYTE api)))
  :: ("REPLY"%string, Obj (API_REPLY api))
  :: API_rest api.

(** Property access [obj[key]]: the first binding of [key]. *)
Fixpoint assoc {V : Type} (key : string) (l : list (string * V)) : option V :=
  match l with
  | [] => None
  | (k, v) :: l' => if String.eqb k key then Some v else assoc key l'
  end.

(** [key in obj]. *)
Definition has_key {V : Type} (key : string) (l : list (string * V)) : bool :=
  match assoc key l with
  | Some _ => true
  | None => false
  end.

(** [Object.keys(obj)], in the object's enumeration order. *)
Definition Object_keys {V : Type} (l : list (string * V)) : list string :=
  map fst l.

(** [String.prototype.toUpperCase] on the ASCII letters the keys are
    written in. *)
Definition upper_ascii (c : ascii) : ascii :=
  let n := nat_of_ascii c in
  if (97 <=? n)%nat && (n <=? 122)%nat then ascii_of_nat (n - 32) else c.

Fixpoint toUpperCase (s : string) : string :=
  match s with
  | EmptyString => EmptyString
  | String c s' => String (upper_ascii c) (toUpperCase s')
  end.

Section Classifier.

Variable API : Api.

(** [static getApiValue(haystack, needle)].  [Needle in API[Haystack]]
    raises a [TypeError] when [API[Haystack]] is not an object
    (undefined, null or a number; a top-level property that is itself a
    buffer is outside what is proved below). *)
Definition getApiValue (haystack needle : string) : Result JsValue :=
  let Haystack := toUpperCase haystack in
  let Needle := toUpperCase needle in
  match assoc Haystack (API_entries API) with
  | Some (Obj table) =>
      if has_key Needle table
      then Ok (default JNull (assoc Needle table))
      else Ok JNull
  | _ => Throw TypeError
  end.

(** [static isDeviceInfoBuffer(buffer)]. *)
Definition isDeviceInfoBuffer (buffer : Buffer) : bool :=
  match Buffer_readUInt8 buffer 0 with
  | Some b => b =? COMMAND.DEVICE_INFO (API_COMMAND API)
  | None => false
  end.

(** The [for] loop of [findApiReply] over the remaining keys: the first
    key whose signature compares equal on bytes 0..1. *)
Fixpoint findApiReply_loop (buffer : Buffer) (haystack : list string)
    : Result (option string) :=
  match haystack with
  | [] => Ok None
  | key :: rest =>
      let! value := getApiValue "reply" key in
      let! c := Buffer_compare buffer value 0 2 0 2 in
      if c =? 0 then Ok (Some key) else findApiReply_loop buffer rest
  end.

(** [static findApiReply(buffer)]. *)
Definition findApiReply (buffer : Buffer) : Result string :=
  let haystack := Object_keys (API_REPLY API) in
  let! found := findApiReply_loop buffer haystack in
  match found with
  | Some key => Ok key
  | None =>
      if isDeviceInfoBuffer buffer then Ok "DEVICE_INFO"%string
      else Throw UnrecognizedReply
  end.

End Classifier.

(** ** The session: write buffer, endpoints, promises and timers *)

Inductive PromiseState : Type :=
| Pending
| Fulfilled (frame : Buffer)
| Rejected (e : JsError).

(** The two ['data'] listeners the class registers: the closure of
    [readFromDeviceUntil] (over [type] and its promise) and the closure of
    [getDeviceInfo] (over its promise). *)
Inductive Listener : Type :=
| UntilListener (type : JsValue) (p : nat)
| DeviceInfoListener (p : nat).

Definition listener_promise (l : Listener) : nat :=
  match l with
  | UntilListener _ p => p
  | DeviceInfoListener p => p
  end.

(** The read endpoint as the class uses it: its ['data'] listeners, whether
    it is polling, and how often each primitive was called. *)
Record ReadEndpoint : Type := mkReadEndpoint {
  listeners : list Listener;
  pollActive : bool;
  calls_removeAllListeners : nat;
  calls_on : nat;
  calls_startPoll : nat;
  calls_stopPoll : nat
}.

(** [buffer] is [this.buffer]; [written] logs the offsets written since the
    buffer was allocated; [transferred] lists the frames handed to the write
    endpoint, oldest first; [timers] holds (deadline, promise) pairs. *)
Record Session : Type := mkSession {
  buffer : WriteBuffer;
  written : list nat;
  transferred : list WriteBuffer;
  readEndpoint : ReadEndpoint;
  promises : list PromiseState;
  timers : list (nat * nat);
  now : nat
}.

Definition with_buffer (b : WriteBuffer) (w : list nat) (s : Session) : Session :=
  mkSession b w (transferred s) (readEndpoint s) (promises s) (timers s) (now s).

Definition with_transferred (t : list WriteBuffer) (s : Session) : Session :=
  mkSession (buffer s) (written s) t (readEndpoint s) (promises s) (timers s) (now s).

Definition with_readEndpoint (e : ReadEndpoint) (s : Session) : Session :=
  mkSession (buffer s) (written s) (transferred s) e (promises s) (timers s) (now s).

Definition with_promises (ps : list PromiseState) (s : Session) : Session :=
  mkSession (buffer s) (written s) (transferred s) (readEndpoint s) ps (timers s) (now s).

Definition with_timers (ts : list (nat * nat)) (s : Session) : Session :=
  mkSession (buffer s) (written s) (transferred s) (readEndpoint s) (promises s) ts (now s).

Definition with_now (n : nat) (s : Session) : Session :=
  mkSession (buffer s) (written s) (transferred s) (readEndpoint s) (promises s) (timers s) n.

(** The session [init] leaves behind: the two-byte buffer [[0, 0]] sent
    once, no listener, no poll, no promise. *)
Definition init : Session :=
  mkSession [Some 0; Some 0] [] [[Some 0; Some 0]]
            (mkReadEndpoint [] false 0 0 0 0) [] [] 0.

(** *** Endpoint primitives *)

(** The [usb] library is an external collaborator: its primitives are
    modelled by what they do to the listener list and to the polling flag,
    and they do not fail. *)

Definition removeAllListeners (s : Session) : Session :=
  let e := readEndpoint s in
  with_readEndpoint
    (mkReadEndpoint [] (pollActive e) (S (calls_removeAllListeners e))
                    (calls_on e) (calls_startPoll e) (calls_stopPoll e)) s.

Definition on_data (l : Listener) (s : Session) : Session :=
  let e := readEndpoint s in
  with_readEndpoint
    (mkReadEndpoint (listeners e ++ [l]) (pollActive e)
                    (calls_removeAllListeners e) (S (calls_on e))
                    (calls_startPoll e) (calls_stopPoll e)) s.

Definition startPoll (s : Session) : Session :=
  let e := readEndpoint s in
  with_readEndpoint
    (mkReadEndpoint (listeners e) true (calls_removeAllListeners e)
                    (calls_on e) (S (calls_startPoll e)) (calls_stopPoll e)) s.

Definition stopPoll (s : Session) : Session :=
  let e := readEndpoint s in
  with_readEndpoint
    (mkReadEndpoint (listeners e) false (calls_removeAllListeners e)
                    (calls_on e) (calls_startPoll e) (S (calls_stopPoll e))) s.

(** *** Promises *)

(** Settling a promise: only a pending promise changes. *)
Definition settle (p : nat) (v : PromiseState) (s : Session) : Session :=
  match promises s !! p with
  | Some Pending => with_promises (<[p := v]> (promises s)) s
  | _ => s
  end.

Definition resolve (p : nat) (frame : Buffer) : Session -> Session :=
  settle p (Fulfilled frame).

Definition reject (p : nat) (e : JsError) : Session -> Session :=
  settle p (Rejected e).

(** [new Promise(executor)]: the executor runs at once, with [resolve] and
    [reject] bound to the new promise [p]. *)
Definition new_Promise (executor : nat -> Session -> Session) (s : Session)
    : Session * nat :=
  let p := length (promises s) in
  (executor p (with_promises (promises s ++ [Pending]) s), p).

(** *** Write buffer *)

(** [resetWriteBuffer(size)]. *)
Definition resetWriteBuffer (size : nat) (s : Session) : Session :=
  with_buffer (Buffer_alloc size) [] s.

(** [setWriteBufferByte(byte, data)]. *)
Definition setWriteBufferByte (byte : nat) (data : Z) (s : Session)
    : Result Session :=
  let! b := Buffer_writeUInt8 (buffer s) data byte in
  Ok (with_buffer b (written s ++ [byte]) s).

(** [writeToDevice(callback)]: the buffer goes to the write endpoint; the
    completion callback belongs to the caller and is not modelled. *)
Definition writeToDevice (s : Session) : Session :=
  with_transferred (transferred s ++ [buffer s]) s.

Section Device.

Variable API : Api.

(** Whether the timeout helper tears the subscription down when its timer
    wins.  The spec says it does; the call site hands the helper nothing
    but the executor.  Every result below holds for both readings. *)
Variable timeoutTearsDown : bool.

Let C : COMMAND.t := API_COMMAND API.
Let B : BYTE.t := API_BYTE API.

(** *** Frame encoder: one method per command *)

Definition simpleColor (char : Z) (s : Session) : Result Session :=
  let s := resetWriteBuffer 2 s in
  let! s := setWriteBufferByte (BYTE.COMMAND B) (COMMAND.SET_COLOR_SIMPLE C) s in
  let! s := setWriteBufferByte 1 char s in
  Ok (writeToDevice s).

Definition color (led red green blue : Z) (s : Session) : Result Session :=
  let s := resetWriteBuffer 5 s in
  let! s := setWriteBufferByte (BYTE.COMMAND B) (COMMAND.SET_COLOR_NO_FADE C) s in
  let! s := setWriteBufferByte (BYTE.LED B) led s in
  let! s := setWriteBufferByte (BYTE.RED B) red s in
  let! s := setWriteBufferByte (BYTE.GREEN B) green s in
  let! s := setWriteBufferByte (BYTE.BLUE B) blue s in
  Ok (writeToDevice s).

Definition colorFade (led red green blue time : Z) (s : Session)
    : Result Session :=
  let s := resetWriteBuffer 6 s in
  let! s := setWriteBufferByte (BYTE.COMMAND B) (COMMAND.SET_COLOR_FADE C) s in
  let! s := setWriteBufferByte (BYTE.LED B) led s in
  let! s := setWriteBufferByte (BYTE.RED B) red s in
  let! s := setWriteBufferByte (BYTE.GREEN B) green s in
  let! s := setWriteBufferByte (BYTE.BLUE B) blue s in
  let! s := setWriteBufferByte (BYTE.TIME B) time s in
  Ok (writeToDevice s).

Definition strobe (led red green blue time repeat : Z) (s : Session)
    : Result Session :=
  let s := resetWriteBuffer 8 s in
  let! s := setWriteBufferByte (BYTE.COMMAND B) (COMMAND.STROBE C) s in
  let! s := setWriteBufferByte (BYTE.LED B) led s in
  let! s := setWriteBufferByte (BYTE.RED B) red s in
  let! s := setWriteBufferByte (BYTE.GREEN B) green s in
  let! s := setWriteBufferByte (BYTE.BLUE B) blue s in
  let! s := setWriteBufferByte (BYTE.TIME B) time s in
  let! s := setWriteBufferByte (BYTE.STROBE_PADDING B) 0 s in
  let! s := setWriteBufferByte (BYTE.STROBE_REPEAT B) repeat s in
  Ok (writeToDevice s).

Definition wave (type red green blue repeat speed : Z) (s : Session)
    : Result Session :=
  let s := resetWriteBuffer 8 s in
  let! s := setWriteBufferByte (BYTE.COMMAND B) (COMMAND.WAVE C) s in
  let! s := setWriteBufferByte (BYTE.WAVE_TYPE B) type s in
  let! s := setWriteBufferByte (BYTE.RED B) red s in
  let! s := setWriteBufferByte (BYTE.GREEN B) green s in
  let! s := setWriteBufferByte (BYTE.BLUE B) blue s in
  let! s := setWriteBufferByte (BYTE.WAVE_PADDING B) 0 s in
  let! s := setWriteBufferByte (BYTE.WAVE_REPEAT B) repeat s in
  let! s := setWriteBufferByte (BYTE.WAVE_SPEED B) speed s in
  Ok (writeToDevice s).

Definition pattern (pattern repeat : Z) (s : Session) : Result Session :=
  let s := resetWriteBuffer 3 s in
  let! s := setWriteBufferByte (BYTE.COMMAND B) (COMMAND.PATTERN C) s in
  let! s := setWriteBufferByte (BYTE.PATTERN_ID B) pattern s in
  let! s := setWriteBufferByte (BYTE.PATTERN_REPEAT B) repeat s in
  Ok (writeToDevice s).

(** *** Timed reply arbiter *)

(** The executor both waits share: drop every ['data'] listener, subscribe
    the new one, start polling. *)
Definition subscribe (l : nat -> Listener) (p : nat) (s : Session) : Session :=
  startPoll (on_data (l p) (removeAllListeners s)).

(** Modelled from the spec: [PromiseVsTimeout.commit(timeoutMs, executor)]
    of [lib/promise-vs-timeout.js], which is not among the sources.  It
    runs the executor on a fresh pending wait and arms a one-shot timer
    for [timeoutMs]. *)
Definition PromiseVsTimeout_commit (timeoutMs : nat)
    (executor : nat -> Session -> Session) (s : Session) : Session * nat :=
  let '(s1, p) := new_Promise executor s in
  (with_timers (timers s1 ++ [((now s1 + timeoutMs)%nat, p)]) s1, p).

(** Modelled from the spec: the timer of [PromiseVsTimeout.commit] firing.
    If the wait is still pending it is settled as a timeout failure (after
    unsubscribing and stopping the poll, when [timeoutTearsDown]); once the
    wait has settled the timer has no effect. *)
Definition fire_timeout (p : nat) (s : Session) : Session :=
  match promises s !! p with
  | Some Pending =>
      reject p WaitTimedOut
             (if timeoutTearsDown then stopPoll (removeAllListeners s) else s)
  | _ => s
  end.

(** [readFromDeviceUntil(type)]. *)
Definition readFromDeviceUntil (type : JsValue) (s : Session) : Session * nat :=
  PromiseVsTimeout_commit 1900 (subscribe (UntilListener type)) s.

(** [getDeviceInfo()]. *)
Definition getDeviceInfo (s : Session) : Result (Session * nat) :=
  let s := resetWriteBuffer 1 s in
  let! s := setWriteBufferByte (BYTE.COMMAND B) (COMMAND.DEVICE_INFO C) s in
  let s := writeToDevice s in
  Ok (new_Promise (subscribe DeviceInfoListener) s).

(** The condition a ['data'] listener tests.  A number is truthy when it
    is not zero, so the listener of [readFromDeviceUntil] accepts a frame
    when [compare] does not return 0. *)
Definition listener_accepts (l : Listener) (buffer : Buffer) : Result bool :=
  match l with
  | UntilListener type _ =>
      let! c := Buffer_compare buffer type 0 2 0 2 in
      Ok (negb (c =? 0))
  | DeviceInfoListener _ => Ok (isDeviceInfoBuffer API buffer)
  end.

(** The body of a ['data'] listener: on an accepted frame, stop the poll
    and resolve. *)
Definition run_listener (l : Listener) (buffer : Buffer) (s : Session)
    : Result Session :=
  let! accepted := listener_accepts l buffer in
  if accepted
  then Ok (resolve (listener_promise l) buffer (stopPoll s))
  else Ok s.

Fixpoint call_listeners (ls : list Listener) (buffer : Buffer) (s : Session)
    : Result Session :=
  match ls with
  | [] => Ok s
  | l :: ls' =>
      let! s' := run_listener l buffer s in
      call_listeners ls' buffer s'
  end.

(** The read endpoint emits ['data']: the listeners registered at that
    moment are called in order. *)
Definition emit_data (buffer : Buffer) (s : Session) : Result Session :=
  call_listeners (listeners (readEndpoint s)) buffer s.

(** The timers in [due] fire, in order. *)
Definition fire_all (due : list (nat * nat)) (s : Session) : Session :=
  foldl (fun s' d => fire_timeout d.2 s') s due.

(** The clock advances by [ms]: every timer whose deadline is reached
    fires, once. *)
Definition elapse (ms : nat) (s : Session) : Session :=
  let t := (now s + ms)%nat in
  let due := filter (fun d => (d.1 <= t)%nat) (timers s) in
  let later := filter (fun d => ~ (d.1 <= t)%nat) (timers s) in
  fire_all due (with_timers later (with_now t s)).

(** *** Commands and traces *)

(** The command variants of the protocol, each with its fields. *)
Inductive Command : Type :=
| SetColorSimple (char : Z)
| SetColorNoFade (led red green blue : Z)
| SetColorFade (led red green blue time : Z)
| Strobe (led red green blue time repeat : Z)
| Wave (type red green blue repeat speed : Z)
| Pattern (id repeat : Z)
| DeviceInfo.

(** The method that serves each command. *)
Definition invoke (c : Command) (s : Session) : Result Session :=
  match c with
  | SetColorSimple char => simpleColor char s
  | SetColorNoFade led r g b => color led r g b s
  | SetColorFade led r g b t => colorFade led r g b t s
  | Strobe led r g b t rep => strobe led r g b t rep s
  | Wave ty r g b rep sp => wave ty r g b rep sp s
  | Pattern id rep => pattern id rep s
  | DeviceInfo => let! r := getDeviceInfo s in Ok r.1
  end.

(** What can happen to a session: the caller invokes a command or arms a
    wait, the device delivers a frame, time passes. *)
Inductive Action : Type :=
| Invoke (c : Command)
| ReadUntil (type : JsValue)
| Data (buffer : Buffer)
| Elapse (ms : nat).

Definition step (a : Action) (s : Session) : Result Session :=
  match a with
  | Invoke c => invoke c s
  | ReadUntil type => Ok (readFromDeviceUntil type s).1
  | Data buffer => emit_data buffer s
  | Elapse ms => Ok (elapse ms s)
  end.

Fixpoint run (tr : list Action) (s : Session) : Result Session :=
  match tr with
  | [] => Ok s
  | a :: tr' => let! s' := step a s in run tr' s'
  end.

End Device.

(** ** The documented protocol *)

(** Modelled from the spec: the byte offsets [API.BYTE] of
    [lib/constants.js], which is not among the sources, read off the table of
    per-command layouts (opcode at 0; led, red, green, blue, time at 1..5;
    strobe padding 6 and repeat 7; wave type 1, padding 5, repeat 6, speed 7;
    pattern id 1 and repeat 2). *)
Definition documented_BYTE : BYTE.t :=
  BYTE.mk 0 1 2 3 4 5 6 7 1 5 6 7 1 2.

(** The opcode each method writes at [BYTE.COMMAND]. *)
Definition opcode (c : COMMAND.t) (cmd : Command) : Z :=
  match cmd with
  | SetColorSimple _ => COMMAND.SET_COLOR_SIMPLE c
  | SetColorNoFade _ _ _ _ => COMMAND.SET_COLOR_NO_FADE c
  | SetColorFade _ _ _ _ _ => COMMAND.SET_COLOR_FADE c
  | Strobe _ _ _ _ _ _ => COMMAND.STROBE c
  | Wave _ _ _ _ _ _ => COMMAND.WAVE c
  | Pattern _ _ => COMMAND.PATTERN c
  | DeviceInfo => COMMAND.DEVICE_INFO c
  end.

(** The frame the layout table prescribes for a command: the spec's side of
    the comparison with what the methods transmit. *)
Definition documented_frame (c : COMMAND.t) (cmd : Command) : list Z :=
  match cmd with
  | SetColorSimple char => [opcode c cmd; char]
  | SetColorNoFade led r g b => [opcode c cmd; led; r; g; b]
  | SetColorFade led r g b t => [opcode c cmd; led; r; g; b; t]
  | Strobe led r g b t rep => [opcode c cmd; led; r; g; b; t; 0; rep]
  | Wave ty r g b rep sp => [opcode c cmd; ty; r; g; b; 0; rep; sp]
  | Pattern id rep => [opcode c cmd; id; rep]
  | DeviceInfo => [opcode c cmd]
  end.

Definition documented_length (cmd : Command) : nat :=
  match cmd with
  | SetColorSimple _ => 2
  | SetColorNoFade _ _ _ _ => 5
  | SetColorFade _ _ _ _ _ => 6
  | Strobe _ _ _ _ _ _ => 8
  | Wave _ _ _ _ _ _ => 8
  | Pattern _ _ => 3
  | DeviceInfo => 1
  end.

Definition byte_ok (z : Z) : bool := (0 <=? z) && (z <=? 255).

Definition fields (cmd : Command) : list Z :=
  match cmd with
  | SetColorSimple char => [char]
  | SetColorNoFade led r g b => [led; r; g; b]
  | SetColorFade led r g b t => [led; r; g; b; t]
  | Strobe led r g b t rep => [led; r; g; b; t; rep]
  | Wave ty r g b rep sp => [ty; r; g; b; rep; sp]
  | Pattern id rep => [id; rep]
  | DeviceInfo => []
  end.

(** A command is well formed when each of its fields fits a byte. *)
Definition well_formed (cmd : Command) : bool := forallb byte_ok (fields cmd).

(** The session once a frame has been built and handed over. *)
Definition encoded (frame : list Z) (s : Session) : Session :=
  let b : WriteBuffer := Some <$> frame in
  with_transferred (transferred s ++ [b])
                   (with_buffer b (seq 0 (length frame)) s).

(** What follows the transfer: only [getDeviceInfo] goes on to arm a wait. *)
Definition after_transfer (cmd : Command) (s : Session) : Session :=
  match cmd with
  | DeviceInfo => (new_Promise (subscribe DeviceInfoListener) s).1
  | _ => s
  end.

(** A sample constants object, for running the embedding on concrete input:
    the documented offsets, one-byte opcodes, two reply signatures, and the
    product and vendor identifiers of the legacy constructor ([0xf372],
    [0x04d8]). *)
Definition sample_API : Api :=
  mkApi (COMMAND.mk 0 1 2 3 4 6 128) documented_BYTE
        [ ("OK"%string, JBuf [1; 0]); ("BUSY"%string, JBuf [1; 1]) ]
        [ ("PID"%string, Scalar (JNum 62322)); ("VID"%string, Scalar (JNum 1240)) ].

(** A reply signature [compare] can be run against: a buffer of at least two
    bytes. *)
Definition signature_ok (v : JsValue) : bool :=
  match v with
  | JBuf b => (2 <=? length b)%nat
  | _ => false
  end.

(** The reply table is usable by [findApiReply]: every key is its own upper
    case and is bound only once, and every signature is a buffer of at least
    two bytes. *)
Definition REPLY_ok (t : Table) : Prop :=
  Forall (fun kv => toUpperCase kv.1 = kv.1 /\ signature_ok kv.2 = true) t
  /\ NoDup (Object_keys t).

(** The first two bytes of a buffer. *)
Definition prefix2 (b : Buffer) : list Z := take 2 b.

(** The buffer starts with the two bytes of the signature. *)
Definition signature_matches (buffer : Buffer) (v : JsValue) : Prop :=
  match v with
  | JBuf t => prefix2 buffer = prefix2 t
  | _ => False
  end.

Definition signature_matchesb (buffer : Buffer) (v : JsValue) : bool :=
  match v with
  | JBuf t => bool_decide (prefix2 buffer = prefix2 t)
  | _ => false
  end.

(** The first key of the table, in enumeration order, whose signature has the
    buffer's first two bytes. *)
Fixpoint first_match (buffer : Buffer) (t : Table) : option string :=
  match t with
  | [] => None
  | (key, v) :: t' =>
      if signature_matchesb buffer v then Some key else first_match buffer t'
  end.

(** A wait has just been armed on [s1], starting from [s0]: its listener is
    the only one, the poll runs, its promise is pending, and the endpoint saw
    one [removeAllListeners], one [on] and one [startPoll]. *)
Definition armed (s0 s1 : Session) (l : Listener) : Prop :=
  let e0 := readEndpoint s0 in
  let e1 := readEndpoint s1 in
  listeners e1 = [l]
  /\ pollActive e1 = true
  /\ promises s1 !! listener_promise l = Some Pending
  /\ calls_removeAllListeners e1 = S (calls_removeAllListeners e0)
  /\ calls_on e1 = S (calls_on e0)
  /\ calls_startPoll e1 = S (calls_startPoll e0)
  /\ calls_stopPoll e1 = calls_stopPoll e0.



(** The time that passes along a trace. *)
Fixpoint elapsed (tr : list Action) : nat :=
  match tr with
  | [] => 0
  | Elapse ms :: tr' => ms + elapsed tr'
  | _ :: tr' => elapsed tr'
  end.

(** Timers only refer to promises that exist. *)
Definition timers_ok (s : Session) : Prop :=
  Forall (fun d => d.2 < length (promises s))%nat (timers s).

(** Two sessions that differ at most in the write buffer and the frames
    transferred. *)
Definition same_async (s s' : Session) : Prop :=
  readEndpoint s' = readEndpoint s
  /\ promises s' = promises s
  /\ timers s' = timers s
  /\ now s' = now s.

(** The wait [p] has been dropped: no listener of the session belongs to it
    and it has not been fulfilled. *)
Definition dropped (p : nat) (s : Session) : Prop :=
  (p < length (promises s))%nat
  /\ Forall (fun l => listener_promise l <> p) (listeners (readEndpoint s))
  /\ forall f, promises s !! p <> Some (Fulfilled f).

(** The actions that arm a wait. *)
Definition arms (a : Action) : Prop :=
  match a with
  | ReadUntil _ => True
  | Invoke DeviceInfo => True
  | _ => False
  end.

(** ** The legacy encoder *)

(** The second, prototype-based [Luxafor] at the end of the file builds each
    frame in a local buffer, with hard-coded opcodes and offsets, and hands it
    to its endpoint; [this.buffer] is not involved. *)

(** [Luxafor.prototype.flashColor(r, g, b, cb)]. *)
Definition flashColor (r g b : Z) (s : Session) : Result Session :=
  let buff := Buffer_alloc 8 in
  let! buff := Buffer_writeUInt8 buff 3 0 in
  let! buff := Buffer_writeUInt8 buff 255 1 in
  let! buff := Buffer_writeUInt8 buff r 2 in
  let! buff := Buffer_writeUInt8 buff g 3 in
  let! buff := Buffer_writeUInt8 buff b 4 in
  let! buff := Buffer_writeUInt8 buff 10 5 in
  let! buff := Buffer_writeUInt8 buff 0 6 in
  let! buff := Buffer_writeUInt8 buff 3 7 in
  Ok (with_transferred (transferred s ++ [buff]) s).

(** [Luxafor.prototype.setColor(r, g, b, cb)]. *)
Definition setColor (r g b : Z) (s : Session) : Result Session :=
  let buff := Buffer_alloc 5 in
  let! buff := Buffer_writeUInt8 buff 1 0 in
  let! buff := Buffer_writeUInt8 buff 255 1 in
  let! buff := Buffer_writeUInt8 buff r 2 in
  let! buff := Buffer_writeUInt8 buff g 3 in
  let! buff := Buffer_writeUInt8 buff b 4 in
  Ok (with_transferred (transferred s ++ [buff]) s).

(** A constants object whose reply table starts with a key in lower case. *)
Definition lowercase_API : Api :=
  mkApi (COMMAND.mk 0 1 2 3 4 6 128) documented_BYTE
        [ ("ok"%string, JBuf [1; 0]) ] [].

(** ** Buffer and encoder lemmas *)

Lemma setWriteBufferByte_ok (byte : nat) (data : Z) (s : Session) :
  byte_ok data = true ->
  (byte < length (buffer s))%nat ->
  setWriteBufferByte byte data s
  = Ok (with_buffer (<[byte := Some data]> (buffer s)) (written s ++ [byte]) s).
Proof.
  intros Hd Hb. unfold setWriteBufferByte, Buffer_writeUInt8, byte_ok in *.
  apply andb_true_iff in Hd as [H0 H255].
  apply Z.leb_le in H0. apply Z.leb_le in H255.
  destruct (255 <? data) eqn:E1; [apply Z.ltb_lt in E1; lia|].
  destruct (data <? 0) eqn:E2; [apply Z.ltb_lt in E2; lia|].
  destruct (length (buffer s) <? byte + 1)%nat eqn:E3;
    [apply Nat.ltb_lt in E3; lia|].
  reflexivity.
Qed.

Lemma setWriteBufferByte_bad (byte : nat) (data : Z) (s : Session) :
  byte_ok data = false ->
  setWriteBufferByte byte data s = Throw RangeError.
Proof.
  intros Hd. unfold setWriteBufferByte, Buffer_writeUInt8, byte_ok in *.
  apply andb_false_iff in Hd as [H|H].
  - apply Z.leb_gt in H.
    destruct (255 <? data); [reflexivity|].
    destruct (data <? 0) eqn:E2; [reflexivity|apply Z.ltb_ge in E2; lia].
  - apply Z.leb_gt in H.
    destruct (255 <? data) eqn:E1; [reflexivity|apply Z.ltb_ge in E1; lia].
Qed.

Ltac write_byte :=
  match goal with
  | |- context [setWriteBufferByte ?b ?d ?s] =>
      let E := fresh "E" in
      destruct (byte_ok d) eqn:E;
      [ rewrite (setWriteBufferByte_ok b d s E) by (simpl; lia)
      | first [ discriminate E
              | rewrite (setWriteBufferByte_bad b d s E) ] ];
      simpl
  end.

(** Every method either throws a [RangeError] (a value does not fit a byte)
    or leaves the session with the documented frame built and transferred. *)
Lemma invoke_spec (api : Api) (cmd : Command) (s : Session) :
  API_BYTE api = documented_BYTE ->
  invoke api cmd s
  = if byte_ok (opcode (API_COMMAND api) cmd) && well_formed cmd
    then Ok (after_transfer cmd
               (encoded (documented_frame (API_COMMAND api) cmd) s))
    else Throw RangeError.
Proof.
  intros HB.
  destruct cmd; unfold invoke, simpleColor, color, colorFade, strobe, wave,
    pattern, getDeviceInfo, well_formed, resetWriteBuffer;
    rewrite HB; simpl; repeat write_byte; reflexivity.
Qed.

Lemma documented_frame_length (c : COMMAND.t) (cmd : Command) :
  length (documented_frame c cmd) = documented_length cmd.
Proof. destruct cmd; reflexivity. Qed.

Lemma after_transfer_write_state (cmd : Command) (s : Session) :
  buffer (after_transfer cmd s) = buffer s
  /\ written (after_transfer cmd s) = written s
  /\ transferred (after_transfer cmd s) = transferred s.
Proof. destruct cmd; repeat split; reflexivity. Qed.

Lemma invoke_Ok_inv (api : Api) (cmd : Command) (s s' : Session) :
  API_BYTE api = documented_BYTE ->
  invoke api cmd s = Ok s' ->
  s' = after_transfer cmd (encoded (documented_frame (API_COMMAND api) cmd) s).
Proof.
  intros HB H. rewrite (invoke_spec api cmd s HB) in H.
  destruct (byte_ok _ && well_formed cmd); congruence.
Qed.

(** ** Frame encoder *)

(** C4.  With the documented offsets, every command whose opcode and fields
    fit a byte is encoded as the frame of the layout table (documented
    length, each field at its offset, padding zero) and that frame is what is
    transferred; [color(1,255,0,0)] transfers [[opcode,1,255,0,0]]; and
    whenever [strobe] transfers a frame, whatever its arguments, the frame
    has 8 bytes and byte 6 is 0. *)
Theorem encode_layout (api : Api) (HB : API_BYTE api = documented_BYTE) :
  (forall (cmd : Command) (s : Session),
      byte_ok (opcode (API_COMMAND api) cmd) = true ->
      well_formed cmd = true ->
      exists s',
        invoke api cmd s = Ok s'
        /\ transferred s'
           = transferred s ++ [Some <$> documented_frame (API_COMMAND api) cmd]
        /\ length (documented_frame (API_COMMAND api) cmd)
           = documented_length cmd)
  /\ (forall s : Session,
      byte_ok (COMMAND.SET_COLOR_NO_FADE (API_COMMAND api)) = true ->
      exists s',
        color api 1 255 0 0 s = Ok s'
        /\ transferred s'
           = transferred s
             ++ [[Some (COMMAND.SET_COLOR_NO_FADE (API_COMMAND api));
                  Some 1; Some 255; Some 0; Some 0]])
  /\ (forall (led red green blue time repeat : Z) (s s' : Session),
      strobe api led red green blue time repeat s = Ok s' ->
      exists frame : WriteBuffer,
        transferred s' = transferred s ++ [frame]
        /\ length frame = 8%nat
        /\ frame !! 6%nat = Some (Some 0)).
Proof.
  assert (Hgen : forall cmd s,
             byte_ok (opcode (API_COMMAND api) cmd) = true ->
             well_formed cmd = true ->
             invoke api cmd s
             = Ok (after_transfer cmd
                     (encoded (documented_frame (API_COMMAND api) cmd) s))).
  { intros cmd s Hop Hwf. rewrite (invoke_spec api cmd s HB), Hop, Hwf.
    reflexivity. }
  split; [|split].
  - intros cmd s Hop Hwf. eexists. split; [apply Hgen; assumption|].
    split; [|apply documented_frame_length].
    destruct (after_transfer_write_state cmd
                (encoded (documented_frame (API_COMMAND api) cmd) s))
      as (_ & _ & ->).
    reflexivity.
  - intros s Hop. eexists. split.
    + apply (Hgen (SetColorNoFade 1 255 0 0) s Hop). reflexivity.
    + reflexivity.
  - intros led red green blue time repeat s s' H.
    apply (invoke_Ok_inv api (Strobe led red green blue time repeat) s s' HB)
      in H.
    subst s'. eexists. split; [reflexivity|]. split; reflexivity.
Qed.

Lemma encode_layout_witness :
  API_BYTE sample_API = documented_BYTE
  /\ exists s',
      invoke sample_API (Strobe 255 10 20 30 5 3) init = Ok s'
      /\ transferred s'
         = [[Some 0; Some 0];
            [Some 3; Some 255; Some 10; Some 20; Some 30; Some 5; Some 0; Some 3]].
Proof.
  split; [reflexivity|].
  destruct (encode_layout sample_API eq_refl) as [H _].
  destruct (H (Strobe 255 10 20 30 5 3) init eq_refl eq_refl) as (s' & H1 & H2 & _).
  exists s'. split; [exact H1|exact H2].
Defined.

(** C8.  With the documented offsets, whenever a command method transfers a
    frame, the offsets written since the buffer was allocated are exactly the
    offsets of the frame, each once, no cell of the transferred buffer is
    left unwritten, and the frame has the command's length; and a method
    does transfer when its opcode and fields fit a byte. *)
Theorem frame_fully_written (api : Api) (HB : API_BYTE api = documented_BYTE) :
  (forall (cmd : Command) (s s' : Session),
      invoke api cmd s = Ok s' ->
      written s' ≡ₚ seq 0 (length (buffer s'))
      /\ NoDup (written s')
      /\ Forall is_Some (buffer s')
      /\ length (buffer s') = documented_length cmd
      /\ transferred s' = transferred s ++ [buffer s'])
  /\ (forall (cmd : Command) (s : Session),
      byte_ok (opcode (API_COMMAND api) cmd) = true ->
      well_formed cmd = true ->
      exists s', invoke api cmd s = Ok s').
Proof.
  split.
  - intros cmd s s' H. apply (invoke_Ok_inv api cmd s s' HB) in H. subst s'.
    destruct (after_transfer_write_state cmd
                (encoded (documented_frame (API_COMMAND api) cmd) s))
      as (-> & -> & ->).
    cbn [encoded buffer written transferred with_transferred with_buffer].
    rewrite length_fmap.
    split; [reflexivity|]. split; [apply NoDup_seq|].
    split; [|split; [apply documented_frame_length|reflexivity]].
    apply Forall_fmap, Forall_true. intros x. simpl. eauto.
  - intros cmd s Hop Hwf. eexists.
    rewrite (invoke_spec api cmd s HB), Hop, Hwf. reflexivity.
Qed.

Lemma frame_fully_written_witness :
  API_BYTE sample_API = documented_BYTE
  /\ exists s',
      invoke sample_API (Wave 2 9 8 7 4 1) init = Ok s'
      /\ written s' ≡ₚ [0; 1; 2; 3; 4; 5; 6; 7]%nat
      /\ Forall is_Some (buffer s').
Proof.
  split; [reflexivity|].
  destruct (frame_fully_written sample_API eq_refl) as [H1 H2].
  destruct (H2 (Wave 2 9 8 7 4 1) init eq_refl eq_refl) as [s' Hs'].
  exists s'. split; [exact Hs'|].
  destruct (H1 _ _ _ Hs') as (Hw & _ & Hf & Hl & _).
  split; [|exact Hf]. rewrite Hl in Hw. exact Hw.
Defined.

(** ** Lemmas on the constants object and on [compare] *)

Lemma upper_ascii_idemp (c : ascii) : upper_ascii (upper_ascii c) = upper_ascii c.
Proof. destruct c as [[] [] [] [] [] [] [] []]; reflexivity. Qed.

Lemma toUpperCase_idemp (s : string) : toUpperCase (toUpperCase s) = toUpperCase s.
Proof.
  induction s as [|c s IH]; [reflexivity|].
  simpl. rewrite upper_ascii_idemp, IH. reflexivity.
Qed.

Lemma assoc_Some_In {V : Type} (key : string) (l : list (string * V)) (v : V) :
  assoc key l = Some v -> In (key, v) l.
Proof.
  induction l as [|[k w] l IH]; simpl; [discriminate|].
  destruct (String.eqb k key) eqn:E.
  - apply String.eqb_eq in E. intros [= ->]. left. congruence.
  - intros H. right. auto.
Qed.

Lemma assoc_None_keys {V : Type} (key : string) (l : list (string * V)) :
  assoc key l = None <-> ~ In key (Object_keys l).
Proof.
  induction l as [|[k w] l IH]; simpl; [tauto|].
  destruct (String.eqb k key) eqn:E.
  - apply String.eqb_eq in E. split; [discriminate|]. intros H. destruct H. auto.
  - apply String.eqb_neq in E. rewrite IH. tauto.
Qed.

Lemma assoc_NoDup_In {V : Type} (key : string) (v : V) (l : list (string * V)) :
  NoDup (Object_keys l) -> In (key, v) l -> assoc key l = Some v.
Proof.
  induction l as [|[k w] l IH]; simpl; [tauto|].
  intros Hnd Hin. apply NoDup_cons in Hnd as [Hk Hnd].
  destruct Hin as [[= -> ->]|Hin].
  - rewrite String.eqb_refl. reflexivity.
  - destruct (String.eqb k key) eqn:E; [|auto].
    apply String.eqb_eq in E. subst k. exfalso. apply Hk.
    apply list_elem_of_In. unfold Object_keys.
    apply (in_map fst l (key, v)) in Hin. exact Hin.
Qed.

Lemma API_REPLY_entry (api : Api) :
  assoc (toUpperCase "reply") (API_entries api) = Some (Obj (API_REPLY api)).
Proof. reflexivity. Qed.

Lemma compareBytes_eq0 (a b : list Z) : compareBytes a b = 0 <-> a = b.
Proof.
  revert b. induction a as [|x a IH]; intros [|y b]; simpl;
    try (split; [discriminate|congruence]); [tauto|].
  destruct (x <? y) eqn:E1; [apply Z.ltb_lt in E1|apply Z.ltb_ge in E1].
  { split; [discriminate|]. intros [= -> _]. lia. }
  destruct (y <? x) eqn:E2; [apply Z.ltb_lt in E2|apply Z.ltb_ge in E2].
  { split; [discriminate|]. intros [= -> _]. lia. }
  assert (x = y) by lia. subst y. rewrite IH. split; congruence.
Qed.

Lemma Buffer_compare_prefix (buffer t : Buffer) :
  (2 <= length buffer)%nat -> (2 <= length t)%nat ->
  Buffer_compare buffer (JBuf t) 0 2 0 2
  = Ok (compareBytes (prefix2 buffer) (prefix2 t)).
Proof.
  intros Hb Ht. unfold Buffer_compare.
  destruct (length t <? 2)%nat eqn:E1; [apply Nat.ltb_lt in E1; lia|].
  destruct (length buffer <? 2)%nat eqn:E2; [apply Nat.ltb_lt in E2; lia|].
  reflexivity.
Qed.

Lemma listener_match_zero (buffer : Buffer) (v : JsValue) :
  (2 <= length buffer)%nat -> signature_ok v = true ->
  exists c, Buffer_compare buffer v 0 2 0 2 = Ok c
            /\ (c =? 0) = signature_matchesb buffer v.
Proof.
  intros Hb Hv. destruct v as [| |t]; try discriminate.
  unfold signature_ok in Hv. apply Nat.leb_le in Hv. rewrite (Buffer_compare_prefix buffer t Hb Hv).
  eexists. split; [reflexivity|]. simpl.
  destruct (compareBytes (prefix2 buffer) (prefix2 t) =? 0) eqn:E.
  - apply Z.eqb_eq, compareBytes_eq0 in E. symmetry.
    apply bool_decide_eq_true_2. exact E.
  - symmetry. apply bool_decide_eq_false_2. intros H.
    apply compareBytes_eq0 in H. apply Z.eqb_neq in E. contradiction.
Qed.

Lemma getApiValue_reply_key (api : Api) (key : string) (v : JsValue) :
  NoDup (Object_keys (API_REPLY api)) ->
  In (key, v) (API_REPLY api) -> toUpperCase key = key ->
  getApiValue api "reply" key = Ok v.
Proof.
  intros Hnd Hin Hup. unfold getApiValue. rewrite API_REPLY_entry, Hup.
  unfold has_key. rewrite (assoc_NoDup_In key v _ Hnd Hin). reflexivity.
Qed.

(** The loop of [findApiReply] finds the first matching signature. *)
Lemma findApiReply_loop_spec (api : Api) (buffer : Buffer) (l : Table) :
  (2 <= length buffer)%nat ->
  NoDup (Object_keys (API_REPLY api)) ->
  Forall (fun kv => In kv (API_REPLY api)
                    /\ toUpperCase kv.1 = kv.1 /\ signature_ok kv.2 = true) l ->
  findApiReply_loop api buffer (Object_keys l) = Ok (first_match buffer l).
Proof.
  intros Hb Hnd. induction l as [|[k v] l IH]; intros Hl; [reflexivity|].
  apply Forall_cons in Hl as [(Hin & Hup & Hsig) Hl]. simpl in *.
  rewrite (getApiValue_reply_key api k v Hnd Hin Hup). simpl.
  destruct (listener_match_zero buffer v Hb Hsig) as (c & -> & Hc). simpl.
  rewrite Hc. destruct (signature_matchesb buffer v); [reflexivity|auto].
Qed.

Lemma findApiReply_spec (api : Api) (buffer : Buffer) :
  REPLY_ok (API_REPLY api) -> (2 <= length buffer)%nat ->
  findApiReply api buffer
  = match first_match buffer (API_REPLY api) with
    | Some key => Ok key
    | None => if isDeviceInfoBuffer api buffer then Ok "DEVICE_INFO"%string
              else Throw UnrecognizedReply
    end.
Proof.
  intros [Hall Hnd] Hb. unfold findApiReply.
  rewrite (findApiReply_loop_spec api buffer (API_REPLY api) Hb Hnd);
    [reflexivity|].
  apply Forall_forall. intros kv Hkv.
  rewrite Forall_forall in Hall. split; [apply list_elem_of_In, Hkv|auto].
Qed.

Lemma signature_matchesb_spec (buffer : Buffer) (v : JsValue) :
  signature_matchesb buffer v = true <-> signature_matches buffer v.
Proof.
  destruct v; simpl; try (split; [discriminate|tauto]).
  apply bool_decide_eq_true.
Qed.

Lemma first_match_app (buffer : Buffer) (pre post : Table) (key : string)
    (sig : JsValue) :
  Forall (fun kv => ~ signature_matches buffer kv.2) pre ->
  signature_matches buffer sig ->
  first_match buffer (pre ++ (key, sig) :: post) = Some key.
Proof.
  intros Hpre Hsig. induction pre as [|[k v] pre IH]; simpl.
  - apply signature_matchesb_spec in Hsig. rewrite Hsig. reflexivity.
  - apply Forall_cons in Hpre as [Hv Hpre]. simpl in Hv.
    destruct (signature_matchesb buffer v) eqn:E; [|auto].
    apply signature_matchesb_spec in E. contradiction.
Qed.

Lemma first_match_None (buffer : Buffer) (t : Table) :
  first_match buffer t = None
  <-> Forall (fun kv => ~ signature_matches buffer kv.2) t.
Proof.
  induction t as [|[k v] t IH]; simpl; [split; [constructor|reflexivity]|].
  rewrite Forall_cons. simpl.
  destruct (signature_matchesb buffer v) eqn:E.
  - apply signature_matchesb_spec in E. split; [discriminate|tauto].
  - rewrite IH. split; [|tauto]. intros H. split; [|exact H].
    intros Hm. apply signature_matchesb_spec in Hm. congruence.
Qed.

Lemma first_match_Some (buffer : Buffer) (t : Table) (key : string) :
  first_match buffer t = Some key ->
  exists sig, In (key, sig) t /\ signature_matches buffer sig.
Proof.
  induction t as [|[k v] t IH]; simpl; [discriminate|].
  destruct (signature_matchesb buffer v) eqn:E.
  - intros [= ->]. exists v. split; [left; reflexivity|].
    apply signature_matchesb_spec, E.
  - intros H. destruct (IH H) as (sig & Hin & Hm). eauto.
Qed.

Lemma first_match_prefix (b1 b2 : Buffer) (t : Table) :
  prefix2 b1 = prefix2 b2 -> first_match b1 t = first_match b2 t.
Proof.
  intros H. induction t as [|[k v] t IH]; simpl; [reflexivity|].
  rewrite IH. destruct v; simpl; try reflexivity. rewrite H. reflexivity.
Qed.

Lemma isDeviceInfoBuffer_prefix (api : Api) (b1 b2 : Buffer) :
  prefix2 b1 = prefix2 b2 ->
  isDeviceInfoBuffer api b1 = isDeviceInfoBuffer api b2.
Proof.
  intros H. unfold isDeviceInfoBuffer, Buffer_readUInt8.
  assert (Hl : forall b : Buffer, b !! 0%nat = prefix2 b !! 0%nat).
  { intros b. unfold prefix2. rewrite lookup_take_lt by lia. reflexivity. }
  rewrite (Hl b1), (Hl b2), H. reflexivity.
Qed.

Lemma sample_REPLY_ok : REPLY_ok (API_REPLY sample_API).
Proof.
  split.
  - repeat constructor.
  - simpl. apply NoDup_cons. split; [|apply NoDup_singleton].
    intros H. apply list_elem_of_singleton in H. discriminate H.
Qed.

(** ** Constants lookup *)

(** C10.  When the upper-cased [haystack] names a table of the constants
    object, [getApiValue] never throws: it returns the table's entry for the
    upper-cased [needle] when that is a key of the table and [null] when it
    is not, and any other spelling of the two arguments that upper-cases to
    the same strings gives the same answer. *)
Theorem getApiValue_lookup (api : Api) (haystack needle : string) (table : Table) :
  assoc (toUpperCase haystack) (API_entries api) = Some (Obj table) ->
  (In (toUpperCase needle) (Object_keys table) ->
     exists v, assoc (toUpperCase needle) table = Some v
               /\ In (toUpperCase needle, v) table
               /\ getApiValue api haystack needle = Ok v)
  /\ (~ In (toUpperCase needle) (Object_keys table) ->
     getApiValue api haystack needle = Ok JNull)
  /\ (exists v, getApiValue api haystack needle = Ok v)
  /\ (forall haystack' needle' : string,
        toUpperCase haystack' = toUpperCase haystack ->
        toUpperCase needle' = toUpperCase needle ->
        getApiValue api haystack' needle' = getApiValue api haystack needle)
  /\ getApiValue api (toUpperCase haystack) (toUpperCase needle)
     = getApiValue api haystack needle.
Proof.
  intros Htab.
  assert (Hval : getApiValue api haystack needle
                 = Ok (default JNull (assoc (toUpperCase needle) table))).
  { unfold getApiValue, has_key. rewrite Htab.
    destruct (assoc (toUpperCase needle) table); reflexivity. }
  repeat split.
  - intros Hin. destruct (assoc (toUpperCase needle) table) as [v|] eqn:E.
    + exists v. split; [reflexivity|]. split; [|exact Hval].
      apply assoc_Some_In, E.
    + apply assoc_None_keys in E. contradiction.
  - intros Hnot. apply assoc_None_keys in Hnot. rewrite Hval, Hnot. reflexivity.
  - eexists. exact Hval.
  - intros haystack' needle' Hh Hn. unfold getApiValue. rewrite Hh, Hn.
    reflexivity.
  - unfold getApiValue. rewrite !toUpperCase_idemp. reflexivity.
Qed.

Lemma getApiValue_lookup_witness :
  assoc (toUpperCase "command") (API_entries sample_API)
  = Some (Obj (COMMAND_table (API_COMMAND sample_API)))
  /\ getApiValue sample_API "command" "strobe" = Ok (JNum 3)
  /\ getApiValue sample_API "Command" "no_such_key" = Ok JNull.
Proof.
  split; [reflexivity|].
  destruct (getApiValue_lookup sample_API "command" "strobe" _ eq_refl)
    as (H1 & _).
  destruct (getApiValue_lookup sample_API "Command" "no_such_key" _ eq_refl)
    as (_ & H2 & _).
  split.
  - destruct H1 as (v & Ha & _ & Hg); [simpl; tauto|].
    vm_compute in Ha. injection Ha as <-. exact Hg.
  - apply H2. simpl. intros H.
    repeat (destruct H as [H|H]; [discriminate H|]). exact H.
Defined.

(** ** Reply classifier *)

(** C5.  With a usable reply table, [findApiReply] on a buffer of at least
    two bytes looks at the first two bytes only (two buffers with the same
    two-byte prefix classify alike, whatever follows), returns the key of the
    first signature, in enumeration order, whose first two bytes are the
    buffer's, and, when no signature matches and byte 0 is the [DEVICE_INFO]
    opcode, returns ["DEVICE_INFO"]. *)
Theorem findApiReply_first_match (api : Api) (HR : REPLY_ok (API_REPLY api)) :
  (forall b1 b2 : Buffer,
      (2 <= length b1)%nat -> (2 <= length b2)%nat ->
      prefix2 b1 = prefix2 b2 ->
      findApiReply api b1 = findApiReply api b2)
  /\ (forall (buffer : Buffer) (pre post : Table) (key : string) (sig : JsValue),
      (2 <= length buffer)%nat ->
      API_REPLY api = pre ++ (key, sig) :: post ->
      Forall (fun kv => ~ signature_matches buffer kv.2) pre ->
      signature_matches buffer sig ->
      findApiReply api buffer = Ok key)
  /\ (forall buffer : Buffer,
      (2 <= length buffer)%nat ->
      Forall (fun kv => ~ signature_matches buffer kv.2) (API_REPLY api) ->
      Buffer_readUInt8 buffer 0 = Some (COMMAND.DEVICE_INFO (API_COMMAND api)) ->
      findApiReply api buffer = Ok "DEVICE_INFO"%string).
Proof.
  split; [|split].
  - intros b1 b2 H1 H2 Hp.
    rewrite (findApiReply_spec api b1 HR H1), (findApiReply_spec api b2 HR H2).
    rewrite (first_match_prefix b1 b2 _ Hp),
      (isDeviceInfoBuffer_prefix api b1 b2 Hp).
    reflexivity.
  - intros buffer pre post key sig Hb Heq Hpre Hsig.
    rewrite (findApiReply_spec api buffer HR Hb), Heq.
    rewrite (first_match_app buffer pre post key sig Hpre Hsig). reflexivity.
  - intros buffer Hb Hnone Hop.
    rewrite (findApiReply_spec api buffer HR Hb).
    apply first_match_None in Hnone. rewrite Hnone.
    unfold isDeviceInfoBuffer. rewrite Hop, Z.eqb_refl. reflexivity.
Qed.

Lemma findApiReply_first_match_witness :
  REPLY_ok (API_REPLY sample_API)
  /\ findApiReply sample_API [1; 1; 7; 7; 7] = Ok "BUSY"%string
  /\ findApiReply sample_API [128; 4; 2; 0] = Ok "DEVICE_INFO"%string.
Proof.
  split; [exact sample_REPLY_ok|].
  destruct (findApiReply_first_match sample_API sample_REPLY_ok) as (_ & H2 & H3).
  split.
  - apply (H2 [1; 1; 7; 7; 7] [("OK"%string, JBuf [1; 0])] [] "BUSY"%string
              (JBuf [1; 1])).
    + simpl. lia.
    + reflexivity.
    + repeat constructor. simpl. discriminate.
    + reflexivity.
  - apply (H3 [128; 4; 2; 0]).
    + simpl. lia.
    + repeat constructor; simpl; discriminate.
    + reflexivity.
Defined.

(** C3, as the code has it.  With a usable reply table, [findApiReply] on a
    buffer of at least two bytes has exactly one of three outcomes: the key
    of a signature that matches, ["DEVICE_INFO"] when none matches and byte 0
    is the [DEVICE_INFO] opcode, and otherwise the thrown error, which is how
    the classifier itself reports an unrecognised reply. *)
Theorem findApiReply_outcomes (api : Api) (buffer : Buffer) :
  REPLY_ok (API_REPLY api) -> (2 <= length buffer)%nat ->
  (exists (key : string) (sig : JsValue),
      In (key, sig) (API_REPLY api) /\ signature_matches buffer sig
      /\ findApiReply api buffer = Ok key)
  \/ (Forall (fun kv => ~ signature_matches buffer kv.2) (API_REPLY api)
      /\ isDeviceInfoBuffer api buffer = true
      /\ findApiReply api buffer = Ok "DEVICE_INFO"%string)
  \/ (Forall (fun kv => ~ signature_matches buffer kv.2) (API_REPLY api)
      /\ isDeviceInfoBuffer api buffer = false
      /\ findApiReply api buffer = Throw UnrecognizedReply).
Proof.
  intros HR Hb. rewrite (findApiReply_spec api buffer HR Hb).
  destruct (first_match buffer (API_REPLY api)) as [key|] eqn:E.
  - left. destruct (first_match_Some _ _ _ E) as (sig & Hin & Hm).
    exists key, sig. auto.
  - right. apply first_match_None in E.
    destruct (isDeviceInfoBuffer api buffer); [left|right]; auto.
Qed.

Lemma findApiReply_outcomes_witness :
  REPLY_ok (API_REPLY sample_API) /\ (2 <= length [1; 0; 5])%nat
  /\ findApiReply sample_API [1; 0; 5] = Ok "OK"%string.
Proof.
  split; [exact sample_REPLY_ok|]. split; [simpl; lia|].
  destruct (findApiReply_outcomes sample_API [1; 0; 5] sample_REPLY_ok)
    as [(key & sig & _ & _ & H)|[(_ & _ & H)|(_ & _ & H)]];
    [simpl; lia| | |]; reflexivity.
Defined.

(** C3, as stated, fails: a two-byte buffer that matches no signature and
    does not start with the [DEVICE_INFO] opcode makes [findApiReply] throw. *)
Lemma findApiReply_throws_on_unrecognized :
  (2 <= length [9; 9])%nat
  /\ findApiReply sample_API [9; 9] = Throw UnrecognizedReply
  /\ ~ (forall buffer : Buffer,
          (2 <= length buffer)%nat ->
          exists kind, findApiReply sample_API buffer = Ok kind).
Proof.
  split; [simpl; lia|]. split; [reflexivity|].
  intros H. destruct (H [9; 9]) as [kind Hk]; [simpl; lia|]. discriminate Hk.
Qed.

(** ** Promises, listeners and timers: basic facts *)

Lemma settle_frame (p : nat) (v : PromiseState) (s : Session) :
  readEndpoint (settle p v s) = readEndpoint s
  /\ timers (settle p v s) = timers s
  /\ now (settle p v s) = now s
  /\ length (promises (settle p v s)) = length (promises s).
Proof.
  unfold settle. destruct (promises s !! p) as [[]|]; repeat split; try reflexivity.
  simpl. apply length_insert.
Qed.

Lemma settle_pending (p : nat) (v : PromiseState) (s : Session) :
  promises s !! p = Some Pending -> promises (settle p v s) !! p = Some v.
Proof.
  intros H. unfold settle. rewrite H. simpl.
  apply list_lookup_insert_eq. apply lookup_lt_Some in H. exact H.
Qed.

Lemma settle_other (p q : nat) (v : PromiseState) (s : Session) :
  q <> p -> promises (settle p v s) !! q = promises s !! q.
Proof.
  intros H. unfold settle. destruct (promises s !! p) as [[]|]; try reflexivity.
  simpl. apply list_lookup_insert_ne. congruence.
Qed.

(** What [settle] can do to a promise: nothing, or move it from pending to
    the given value. *)
Lemma settle_cases (p q : nat) (v : PromiseState) (s : Session) :
  promises (settle p v s) !! q = promises s !! q
  \/ (q = p /\ promises s !! q = Some Pending
      /\ promises (settle p v s) !! q = Some v).
Proof.
  destruct (decide (q = p)) as [->|Hne].
  - unfold settle. destruct (promises s !! p) as [[]|] eqn:E; auto.
    right. split; [reflexivity|]. split; [reflexivity|]. simpl.
    apply list_lookup_insert_eq. apply lookup_lt_Some in E. exact E.
  - left. apply settle_other, Hne.
Qed.

(** ** Timed reply arbiter: the success path *)

(** C1, at the code.  After [readFromDeviceUntil(type)], a frame whose first
    two bytes are those of [type] leaves the wait pending, and a frame whose
    first two bytes differ resolves it with that frame: the listener tests
    the raw result of [compare], which is 0 on equality. *)
Theorem readFromDeviceUntil_resolves_on_mismatch (api : Api) (s : Session)
    (a b c d : Z) (rest trest : list Z) :
  let frame := a :: b :: rest in
  let w := readFromDeviceUntil (JBuf (c :: d :: trest)) s in
  exists s2,
    emit_data api frame w.1 = Ok s2
    /\ promises s2 !! w.2
       = Some (if (a =? c) && (b =? d) then Pending else Fulfilled frame).
Proof.
  intros frame w.
  assert (Hp : promises w.1 !! w.2 = Some Pending).
  { subst w. simpl. apply list_lookup_middle. reflexivity. }
  assert (Hl : listeners (readEndpoint w.1)
               = [UntilListener (JBuf (c :: d :: trest)) w.2]) by reflexivity.
  unfold emit_data. rewrite Hl. cbn [call_listeners].
  unfold run_listener, listener_accepts.
  assert (Hc : Buffer_compare frame (JBuf (c :: d :: trest)) 0 2 0 2
               = Ok (compareBytes [a; b] [c; d])) by reflexivity.
  rewrite Hc. cbn [bind listener_promise].
  destruct ((a =? c) && (b =? d)) eqn:E.
  - apply andb_true_iff in E as [Ea Eb].
    apply Z.eqb_eq in Ea. apply Z.eqb_eq in Eb. subst c d.
    assert (H0 : compareBytes [a; b] [a; b] = 0) by (apply compareBytes_eq0; reflexivity).
    rewrite H0. simpl. eexists. split; [reflexivity|exact Hp].
  - assert (H0 : (compareBytes [a; b] [c; d] =? 0) = false).
    { apply Z.eqb_neq. intros H. apply compareBytes_eq0 in H.
      injection H as -> ->. rewrite !Z.eqb_refl in E. discriminate. }
    rewrite H0. simpl. eexists. split; [reflexivity|].
    unfold resolve. apply settle_pending. exact Hp.
Qed.

(** ** Timers *)

Section Timers.

Variable flag : bool.

Lemma fire_timeout_frame (p : nat) (s : Session) :
  timers (fire_timeout flag p s) = timers s
  /\ now (fire_timeout flag p s) = now s
  /\ length (promises (fire_timeout flag p s)) = length (promises s)
  /\ (listeners (readEndpoint (fire_timeout flag p s))
      = listeners (readEndpoint s)
      \/ listeners (readEndpoint (fire_timeout flag p s)) = []).
Proof.
  unfold fire_timeout, reject.
  destruct (promises s !! p) as [[]|]; try (repeat split; auto; fail).
  destruct (settle_frame p (Rejected WaitTimedOut)
              (if flag then stopPoll (removeAllListeners s) else s))
    as (-> & -> & -> & ->).
  destruct flag; repeat split; auto.
Qed.

Lemma fire_timeout_promise (p q : nat) (s : Session) :
  promises (fire_timeout flag p s) !! q = promises s !! q
  \/ (q = p /\ promises s !! q = Some Pending
      /\ promises (fire_timeout flag p s) !! q = Some (Rejected WaitTimedOut)).
Proof.
  unfold fire_timeout, reject.
  destruct (promises s !! p) as [[]|] eqn:E; auto.
  assert (Hp : promises (if flag then stopPoll (removeAllListeners s) else s)
               = promises s) by (destruct flag; reflexivity).
  destruct (settle_cases p q (Rejected WaitTimedOut)
              (if flag then stopPoll (removeAllListeners s) else s))
    as [H|(-> & H1 & H2)].
  - left. rewrite H, Hp. reflexivity.
  - right. rewrite Hp in H1. auto.
Qed.

Lemma fire_timeout_settles (p : nat) (s : Session) :
  promises (fire_timeout flag p s) !! p <> Some Pending.
Proof.
  destruct (fire_timeout_promise p p s) as [H|(_ & _ & H)];
    [|rewrite H; discriminate].
  rewrite H. unfold fire_timeout in H.
  destruct (promises s !! p) as [[]|] eqn:E; try discriminate.
  exfalso. revert H. unfold reject.
  rewrite settle_pending by (destruct flag; exact E). discriminate.
Qed.

Lemma fire_all_frame (due : list (nat * nat)) (s : Session) :
  timers (fire_all flag due s) = timers s
  /\ now (fire_all flag due s) = now s
  /\ length (promises (fire_all flag due s)) = length (promises s)
  /\ (listeners (readEndpoint (fire_all flag due s)) = listeners (readEndpoint s)
      \/ listeners (readEndpoint (fire_all flag due s)) = []).
Proof.
  revert s. induction due as [|d due IH]; intros s; [repeat split; auto|].
  unfold fire_all in *. simpl.
  destruct (IH (fire_timeout flag d.2 s)) as (-> & -> & -> & Hl).
  destruct (fire_timeout_frame d.2 s) as (-> & -> & -> & Hl').
  repeat split. destruct Hl as [->| ->]; auto.
Qed.

Lemma fire_all_promise (due : list (nat * nat)) (q : nat) (s : Session) :
  promises (fire_all flag due s) !! q = promises s !! q
  \/ (promises s !! q = Some Pending
      /\ promises (fire_all flag due s) !! q = Some (Rejected WaitTimedOut)
      /\ exists d, (d, q) ∈ due).
Proof.
  revert s. induction due as [|d due IH]; intros s; [left; reflexivity|].
  unfold fire_all in *. simpl.
  destruct (IH (fire_timeout flag d.2 s)) as [H|(H1 & H2 & d' & Hd')];
    destruct (fire_timeout_promise d.2 q s) as [H'|(Hq & H1' & H2')].
  - left. congruence.
  - right. split; [exact H1'|]. split; [congruence|].
    exists d.1. subst q. destruct d. left.
  - right. split; [congruence|]. split; [exact H2|].
    exists d'. right. exact Hd'.
  - congruence.
Qed.

Lemma fire_all_settles (due : list (nat * nat)) (d q : nat) (s : Session) :
  (d, q) ∈ due -> promises (fire_all flag due s) !! q <> Some Pending.
Proof.
  revert s. induction due as [|x due IH]; intros s Hin.
  - apply not_elem_of_nil in Hin. contradiction.
  - apply elem_of_cons in Hin as [<-|Hin].
    + unfold fire_all. simpl. fold (fire_all flag due (fire_timeout flag q s)).
      destruct (fire_all_promise due q (fire_timeout flag q s))
        as [H|(H & _)].
      * rewrite H. apply fire_timeout_settles.
      * exfalso. exact (fire_timeout_settles q s H).
    + unfold fire_all in *. simpl. apply IH, Hin.
Qed.

Lemma elapse_frame (ms : nat) (s : Session) :
  now (elapse flag ms s) = (now s + ms)%nat
  /\ timers (elapse flag ms s)
     = filter (fun d => ~ (d.1 <= now s + ms)%nat) (timers s)
  /\ length (promises (elapse flag ms s)) = length (promises s)
  /\ (listeners (readEndpoint (elapse flag ms s)) = listeners (readEndpoint s)
      \/ listeners (readEndpoint (elapse flag ms s)) = []).
Proof.
  unfold elapse.
  match goal with |- context [fire_all flag ?due ?s0] =>
    destruct (fire_all_frame due s0) as (-> & -> & -> & Hl) end.
  repeat split. exact Hl.
Qed.

Lemma elapse_promise (ms q : nat) (s : Session) :
  promises (elapse flag ms s) !! q = promises s !! q
  \/ (promises s !! q = Some Pending
      /\ promises (elapse flag ms s) !! q = Some (Rejected WaitTimedOut)
      /\ exists d, (d, q) ∈ timers s /\ (d <= now s + ms)%nat).
Proof.
  unfold elapse.
  match goal with |- context [fire_all flag ?due ?s0] =>
    destruct (fire_all_promise due q s0) as [H|(H1 & H2 & d & Hd)] end.
  - left. exact H.
  - right. split; [exact H1|]. split; [exact H2|].
    exists d. apply list_elem_of_filter in Hd as [Hle Hin]. auto.
Qed.

Lemma elapse_settles (ms d q : nat) (s : Session) :
  (d, q) ∈ timers s -> (d <= now s + ms)%nat ->
  promises (elapse flag ms s) !! q <> Some Pending.
Proof.
  intros Hin Hle. unfold elapse.
  apply (fire_all_settles _ d). apply list_elem_of_filter. auto.
Qed.

End Timers.

(** ** Data events *)

Lemma run_listener_cases (api : Api) (l : Listener) (frame : Buffer)
    (s s' : Session) :
  run_listener api l frame s = Ok s' ->
  (listener_accepts api l frame = Ok false /\ s' = s)
  \/ (listener_accepts api l frame = Ok true
      /\ s' = resolve (listener_promise l) frame (stopPoll s)).
Proof.
  unfold run_listener.
  destruct (listener_accepts api l frame) as [[]|]; simpl;
    [intros [= <-]; auto|intros [= <-]; auto|discriminate].
Qed.

Lemma run_listener_frame (api : Api) (l : Listener) (frame : Buffer)
    (s s' : Session) :
  run_listener api l frame s = Ok s' ->
  listeners (readEndpoint s') = listeners (readEndpoint s)
  /\ timers s' = timers s /\ now s' = now s
  /\ length (promises s') = length (promises s).
Proof.
  intros H. apply run_listener_cases in H as [[_ ->]|[_ ->]]; [auto|].
  unfold resolve.
  destruct (settle_frame (listener_promise l) (Fulfilled frame) (stopPoll s))
    as (-> & -> & -> & ->).
  auto.
Qed.

Lemma run_listener_promise (api : Api) (l : Listener) (frame : Buffer)
    (q : nat) (s s' : Session) :
  run_listener api l frame s = Ok s' ->
  promises s' !! q = promises s !! q
  \/ (q = listener_promise l /\ promises s !! q = Some Pending
      /\ promises s' !! q = Some (Fulfilled frame)).
Proof.
  intros H. apply run_listener_cases in H as [[_ ->]|[_ ->]]; [auto|].
  unfold resolve.
  destruct (settle_cases (listener_promise l) q (Fulfilled frame) (stopPoll s))
    as [Hs|(Hq & H1 & H2)]; auto.
Qed.

Lemma call_listeners_frame (api : Api) (ls : list Listener) (frame : Buffer)
    (s s' : Session) :
  call_listeners api ls frame s = Ok s' ->
  listeners (readEndpoint s') = listeners (readEndpoint s)
  /\ timers s' = timers s /\ now s' = now s
  /\ length (promises s') = length (promises s).
Proof.
  revert s. induction ls as [|l ls IH]; intros s; simpl.
  - intros [= <-]. auto.
  - destruct (run_listener api l frame s) as [s1|] eqn:E; simpl; [|discriminate].
    intros H. apply IH in H as (-> & -> & -> & ->).
    apply run_listener_frame in E. exact E.
Qed.

Lemma call_listeners_promise (api : Api) (ls : list Listener) (frame : Buffer)
    (q : nat) (s s' : Session) :
  call_listeners api ls frame s = Ok s' ->
  promises s' !! q = promises s !! q
  \/ (promises s !! q = Some Pending
      /\ promises s' !! q = Some (Fulfilled frame)
      /\ exists l, l ∈ ls /\ listener_promise l = q).
Proof.
  revert s. induction ls as [|l ls IH]; intros s; simpl.
  - intros [= <-]. auto.
  - destruct (run_listener api l frame s) as [s1|] eqn:E; simpl; [|discriminate].
    intros H. apply IH in H.
    apply (run_listener_promise api l frame q) in E.
    destruct H as [H|(H1 & H2 & l' & Hl' & Hq)];
      destruct E as [E|(Eq & E1 & E2)].
    + left. congruence.
    + right. split; [exact E1|]. split; [congruence|].
      exists l. split; [left|auto].
    + right. split; [congruence|]. split; [exact H2|].
      exists l'. split; [right; exact Hl'|exact Hq].
    + congruence.
Qed.

(** ** Calls *)

Lemma setWriteBufferByte_async (byte : nat) (data : Z) (s s' : Session) :
  setWriteBufferByte byte data s = Ok s' -> same_async s s'.
Proof.
  unfold setWriteBufferByte.
  destruct (Buffer_writeUInt8 (buffer s) data byte); simpl; [|discriminate].
  intros [= <-]. repeat split.
Qed.

Lemma same_async_trans (s1 s2 s3 : Session) :
  same_async s1 s2 -> same_async s2 s3 -> same_async s1 s3.
Proof. unfold same_async. intros (-> & -> & -> & ->) (-> & -> & -> & ->). auto. Qed.

Ltac bind_inv H :=
  repeat match type of H with
  | context [setWriteBufferByte ?b ?d ?s] =>
      let s1 := fresh "s" in
      let E := fresh "E" in
      destruct (setWriteBufferByte b d s) as [s1|] eqn:E; cbn [bind] in H;
      [apply setWriteBufferByte_async in E | discriminate H]
  end.

Ltac async_chain :=
  repeat match goal with
  | E : same_async ?a ?b |- same_async ?a _ =>
      apply (same_async_trans a b); [exact E|]; clear E
  end;
  repeat split.

(** A command method touches the write side only; [getDeviceInfo] then arms
    its wait. *)
Lemma invoke_async (api : Api) (cmd : Command) (s s' : Session) :
  invoke api cmd s = Ok s' ->
  exists s0, same_async s s0 /\ s' = after_transfer cmd s0.
Proof.
  destruct cmd; unfold invoke, simpleColor, color, colorFade, strobe, wave,
    pattern, getDeviceInfo; intros H; cbv zeta in H; bind_inv H;
    injection H as <-;
    match goal with
    | E : same_async (resetWriteBuffer ?n s) _ |- _ =>
        assert (same_async s (resetWriteBuffer n s)) by (repeat split)
    end;
    match goal with
    | |- context [writeToDevice ?sk] => exists (writeToDevice sk)
    end;
    (split; [async_chain|reflexivity]).
Qed.

(** ** One step of a session *)

Section Steps.

Variable api : Api.
Variable flag : bool.

(** How one action changes the clock, the promises, the listeners and the
    timers.  A promise changes only from pending: to fulfilled, by a frame
    delivered to a listener of that promise, or to the timeout failure, by a
    timer of that promise that is due. *)
Lemma step_facts (a : Action) (s s' : Session) :
  step api flag a s = Ok s' ->
  now s' = (now s + elapsed [a])%nat
  /\ (length (promises s) <= length (promises s'))%nat
  /\ (forall q, (q < length (promises s))%nat ->
        promises s' !! q = promises s !! q
        \/ (promises s !! q = Some Pending
            /\ ((exists f l, a = Data f
                             /\ l ∈ listeners (readEndpoint s)
                             /\ listener_promise l = q
                             /\ promises s' !! q = Some (Fulfilled f))
                \/ (exists d ms, a = Elapse ms
                                 /\ (d, q) ∈ timers s
                                 /\ (d <= now s + ms)%nat
                                 /\ promises s' !! q
                                    = Some (Rejected WaitTimedOut)))))
  /\ (listeners (readEndpoint s') = listeners (readEndpoint s)
      \/ listeners (readEndpoint s') = []
      \/ exists l, listeners (readEndpoint s') = [l]
                   /\ listener_promise l = length (promises s))
  /\ (forall d q, (d, q) ∈ timers s ->
        (d, q) ∈ timers s'
        \/ (exists ms, a = Elapse ms /\ (d <= now s + ms)%nat
                       /\ promises s' !! q <> Some Pending)).
Proof.
  destruct a as [c|type|f|ms]; simpl; intros H.
  - apply invoke_async in H as (s0 & (He & Hp & Ht & Hn) & ->).
    assert (Hcases :
      (promises (after_transfer c s0) = promises s
       /\ readEndpoint (after_transfer c s0) = readEndpoint s)
      \/ (promises (after_transfer c s0) = promises s ++ [Pending]
          /\ listeners (readEndpoint (after_transfer c s0))
             = [DeviceInfoListener (length (promises s))])).
    { destruct c; try (left; split; assumption).
      right. simpl. rewrite Hp. split; reflexivity. }
    assert (Htn : timers (after_transfer c s0) = timers s
                  /\ now (after_transfer c s0) = now s).
    { destruct c; split; assumption. }
    destruct Htn as [Ht' Hn'].
    split; [rewrite Hn'; lia|].
    split; [destruct Hcases as [[-> _]|[-> _]];
            rewrite ?length_app; simpl; lia|].
    split; [intros q Hq; left; destruct Hcases as [[-> _]|[-> _]];
            [reflexivity|apply lookup_app_l, Hq]|].
    split; [destruct Hcases as [[_ ->]|[_ ->]]; [left; reflexivity|];
            right; right; eexists; split; reflexivity|].
    intros d q Hin. left. rewrite Ht'. exact Hin.
  - injection H as <-. simpl.
    split; [lia|]. split; [rewrite length_app; simpl; lia|].
    split; [intros q Hq; left; apply lookup_app_l, Hq|].
    split; [right; right; eexists; split; reflexivity|].
    intros d q Hin. left. apply elem_of_app. left. exact Hin.
  - unfold emit_data in H.
    destruct (call_listeners_frame _ _ _ _ _ H) as (Hl & Ht & Hn & Hlen).
    split; [rewrite Hn; lia|]. split; [lia|].
    split; [|split; [left; exact Hl|intros d q Hin; left; rewrite Ht; exact Hin]].
    intros q _.
    destruct (call_listeners_promise _ _ _ q _ _ H) as [Hq|(H1 & H2 & l & Hin & Hlq)];
      [left; exact Hq|].
    right. split; [exact H1|]. left. exists f, l. auto.
  - injection H as <-.
    destruct (elapse_frame flag ms s) as (Hn & Ht & Hlen & Hl).
    split; [rewrite Hn; lia|]. split; [lia|].
    split; [|split; [destruct Hl as [Hl|Hl]; auto|]].
    + intros q _.
      destruct (elapse_promise flag ms q s) as [Hq|(H1 & H2 & d & Hin & Hle)];
        [left; exact Hq|].
      right. split; [exact H1|]. right. exists d, ms. auto.
    + intros d q Hin.
      destruct (decide (d <= now s + ms)%nat) as [Hle|Hgt].
      * right. exists ms. split; [reflexivity|]. split; [exact Hle|].
        apply (elapse_settles flag ms d q s Hin Hle).
      * left. rewrite Ht. apply list_elem_of_filter. auto.
Qed.

(** A settled promise is never changed again. *)
Lemma step_stable (a : Action) (s s' : Session) (q : nat) (v : PromiseState) :
  step api flag a s = Ok s' ->
  promises s !! q = Some v -> v <> Pending -> promises s' !! q = Some v.
Proof.
  intros H Hq Hv. destruct (step_facts a s s' H) as (_ & _ & Hp & _).
  destruct (Hp q) as [Heq|(Hpend & _)].
  - apply lookup_lt_Some in Hq. exact Hq.
  - congruence.
  - congruence.
Qed.

Lemma run_stable (tr : list Action) (s s' : Session) (q : nat)
    (v : PromiseState) :
  run api flag tr s = Ok s' ->
  promises s !! q = Some v -> v <> Pending -> promises s' !! q = Some v.
Proof.
  revert s. induction tr as [|a tr IH]; intros s; simpl.
  - intros [= <-]. auto.
  - destruct (step api flag a s) as [s1|] eqn:E; simpl; [|discriminate].
    intros H Hq Hv. apply (IH s1 H); [|exact Hv].
    apply (step_stable a s s1 q v E Hq Hv).
Qed.

(** A pending wait with a timer armed for deadline [d]: along any trace it
    is still pending with the deadline ahead, or fulfilled by a frame of the
    trace, or timed out. *)
Lemma run_wait_outcome (tr : list Action) (s s2 : Session) (d p : nat) :
  run api flag tr s = Ok s2 ->
  promises s !! p = Some Pending -> (d, p) ∈ timers s -> (now s < d)%nat ->
  (promises s2 !! p = Some Pending
   /\ (now s2 < d)%nat /\ now s2 = (now s + elapsed tr)%nat)
  \/ (exists f, Data f ∈ tr /\ promises s2 !! p = Some (Fulfilled f))
  \/ promises s2 !! p = Some (Rejected WaitTimedOut).
Proof.
  revert s. induction tr as [|a tr IH]; intros s; simpl.
  - intros [= <-] Hp Ht Hn. left. repeat split; auto.
  - destruct (step api flag a s) as [s1|] eqn:E; simpl; [|discriminate].
    intros H Hp Ht Hn.
    destruct (step_facts a s s1 E) as (Hnow & Hlen & Hprom & _ & Htim).
    assert (Hlt : (p < length (promises s))%nat)
      by (apply lookup_lt_Some in Hp; exact Hp).
    destruct (Hprom p Hlt) as [Hsame|(_ & [(f & l & -> & _ & _ & Hf)
                                          |(d' & ms & -> & _ & _ & Hr)])].
    + rewrite Hp in Hsame.
      destruct (Htim d p Ht) as [Hin|(ms & -> & Hle & Hne)];
        [|contradiction].
      destruct (decide (now s1 < d)%nat) as [Hlt1|Hge].
      * destruct (IH s1 H Hsame Hin Hlt1) as [(H1 & H2 & H3)|[(f & Hf & H1)|H1]].
        -- left. repeat split; auto. rewrite H3, Hnow.
           destruct a; simpl; lia.
        -- right. left. exists f. split; [right; exact Hf|exact H1].
        -- right. right. exact H1.
      * exfalso. destruct a; simpl in Hnow; try lia.
        injection E as <-.
        apply (elapse_settles flag ms d p s Ht); [lia|exact Hsame].
    + right. left. exists f. split; [left|].
      apply (run_stable tr s1 s2 p _ H Hf). discriminate.
    + right. right. apply (run_stable tr s1 s2 p _ H Hr). discriminate.
Qed.

End Steps.

(** ** Arming a wait *)

Lemma readFromDeviceUntil_inv (type : JsValue) (s : Session) :
  let w := readFromDeviceUntil type s in
  w.2 = length (promises s)
  /\ promises w.1 = promises s ++ [Pending]
  /\ timers w.1 = timers s ++ [((now s + 1900)%nat, w.2)]
  /\ now w.1 = now s
  /\ armed s w.1 (UntilListener type w.2).
Proof.
  simpl. repeat split; try reflexivity.
  apply list_lookup_middle. reflexivity.
Qed.

Lemma getDeviceInfo_inv (api : Api) (s s1 : Session) (p : nat) :
  getDeviceInfo api s = Ok (s1, p) ->
  p = length (promises s)
  /\ promises s1 = promises s ++ [Pending]
  /\ timers s1 = timers s
  /\ now s1 = now s
  /\ armed s s1 (DeviceInfoListener p).
Proof.
  unfold getDeviceInfo. intros H. cbv zeta in H.
  match type of H with
  | context [setWriteBufferByte ?b ?d ?s0] =>
      destruct (setWriteBufferByte b d s0) as [s'|] eqn:E; simpl in H;
      [apply setWriteBufferByte_async in E as (He & Hp & Ht & Hn)
      |discriminate H]
  end.
  simpl in *. injection H as <- <-. simpl.
  unfold armed. simpl. rewrite He, Hp, Ht, Hn. simpl.
  repeat split; try reflexivity.
  apply list_lookup_middle. reflexivity.
Qed.

(** ** Timed reply arbiter: the timeout path *)

Lemma elapse_only_pending (flag : bool) (api : Api) (p : nat)
    (ticks : list nat) (s1 : Session) :
  promises s1 !! p = Some Pending ->
  Forall (fun d => d.2 <> p) (timers s1) ->
  exists s2,
    run api flag (Elapse <$> ticks) s1 = Ok s2
    /\ promises s2 !! p = Some Pending
    /\ now s2 = (now s1 + sum_list ticks)%nat.
Proof.
  revert s1. induction ticks as [|ms ticks IH]; intros s1 Hp Ht; simpl.
  - exists s1. repeat split; auto.
  - destruct (elapse_frame flag ms s1) as (Hn & Htim & _ & _).
    destruct (IH (elapse flag ms s1)) as (s2 & Hrun & Hp2 & Hn2).
    + destruct (elapse_promise flag ms p s1) as [->|(_ & _ & d & Hin & _)];
        [exact Hp|].
      rewrite Forall_forall in Ht. exfalso. apply (Ht (d, p) Hin). reflexivity.
    + rewrite Htim. rewrite Forall_forall in *. intros x Hx.
      apply list_elem_of_filter in Hx as [_ Hx]. auto.
    + exists s2. split; [exact Hrun|]. split; [exact Hp2|]. lia.
Qed.

(** C2, at the code.  The wait [getDeviceInfo] returns has no timer: if the
    device never delivers a frame the promise is still pending however much
    time passes, the 1900 ms of the sibling wait included. *)
Theorem getDeviceInfo_never_times_out (api : Api) (flag : bool)
    (s s1 : Session) (p : nat) (ticks : list nat) :
  timers_ok s ->
  getDeviceInfo api s = Ok (s1, p) ->
  exists s2,
    run api flag (Elapse <$> ticks) s1 = Ok s2
    /\ promises s2 !! p = Some Pending
    /\ now s2 = (now s + sum_list ticks)%nat.
Proof.
  intros Hok H.
  apply getDeviceInfo_inv in H as (-> & Hp & Ht & Hn & Harmed).
  rewrite <- Hn. apply elapse_only_pending.
  - rewrite Hp. apply list_lookup_middle. reflexivity.
  - rewrite Ht. unfold timers_ok in Hok. rewrite Forall_forall in *.
    intros d Hd. specialize (Hok d Hd). simpl in Hok. lia.
Qed.

Lemma getDeviceInfo_never_times_out_witness :
  timers_ok init
  /\ exists s1 s2,
      getDeviceInfo sample_API init = Ok (s1, 0%nat)
      /\ run sample_API true (Elapse <$> [1900; 3000]%nat) s1 = Ok s2
      /\ promises s2 !! 0%nat = Some Pending
      /\ now s2 = 4900%nat.
Proof.
  assert (Hok : timers_ok init) by constructor.
  split; [exact Hok|].
  eexists.
  destruct (getDeviceInfo_never_times_out sample_API true init _ 0
              [1900; 3000]%nat Hok eq_refl) as (s2 & H1 & H2 & H3).
  exists s2. split; [reflexivity|]. split; [exact H1|]. split; [exact H2|exact H3].
Defined.

(** C6.  A wait armed by [readFromDeviceUntil] and followed by any trace of
    calls, frames and clock ticks shows the caller one outcome: it is still
    pending, and then fewer than 1900 ms have passed; or it is fulfilled with
    a frame of the trace; or it has timed out.  Once it has settled no later
    action changes what the caller sees. *)
Theorem readFromDeviceUntil_settles_once (api : Api) (flag : bool)
    (type : JsValue) (s s2 : Session) (tr : list Action) :
  let w := readFromDeviceUntil type s in
  run api flag tr w.1 = Ok s2 ->
  ((promises s2 !! w.2 = Some Pending /\ (elapsed tr < 1900)%nat)
   \/ (exists f, Data f ∈ tr /\ promises s2 !! w.2 = Some (Fulfilled f))
   \/ promises s2 !! w.2 = Some (Rejected WaitTimedOut))
  /\ (forall (tr' : list Action) (s3 : Session) (v : PromiseState),
        run api flag tr' s2 = Ok s3 ->
        promises s2 !! w.2 = Some v -> v <> Pending ->
        promises s3 !! w.2 = Some v).
Proof.
  intros w Hrun.
  destruct (readFromDeviceUntil_inv type s) as (Hp & Hps & Ht & Hn & Ha).
  fold w in Hp, Hps, Ht, Hn, Ha.
  split.
  - destruct (run_wait_outcome api flag tr w.1 s2 (now s + 1900)%nat w.2 Hrun)
      as [(H1 & H2 & H3)|[H|H]]; auto.
    + rewrite Hps, Hp. apply list_lookup_middle. reflexivity.
    + rewrite Ht. apply elem_of_app. right. left.
    + lia.
    + left. split; [exact H1|]. lia.
  - intros tr' s3 v Hrun' Hv Hne.
    apply (run_stable api flag tr' s2 s3 w.2 v Hrun' Hv Hne).
Qed.

Lemma readFromDeviceUntil_settles_once_witness :
  exists s2 s3,
    let w := readFromDeviceUntil (JBuf [1; 0]) init in
    run sample_API true [Elapse 1900; Data [7; 7]] w.1 = Ok s2
    /\ promises s2 !! w.2 = Some (Rejected WaitTimedOut)
    /\ run sample_API true [Data [7; 7]; Elapse 1900] w.1 = Ok s3
    /\ promises s3 !! w.2 = Some (Fulfilled [7; 7]).
Proof.
  eexists. eexists. intros w.
  assert (H2 : run sample_API true [Elapse 1900; Data [7; 7]] w.1 = Ok _)
    by reflexivity.
  assert (H3 : run sample_API true [Data [7; 7]; Elapse 1900] w.1 = Ok _)
    by reflexivity.
  pose proof (readFromDeviceUntil_settles_once sample_API true (JBuf [1; 0])
                init _ _ H2) as [_ Hs2].
  pose proof (readFromDeviceUntil_settles_once sample_API true (JBuf [1; 0])
                init _ _ H3) as [_ Hs3].
  split; [exact H2|].
  split; [apply (Hs2 [] _ _ eq_refl); [reflexivity|discriminate]|].
  split; [exact H3|].
  apply (Hs3 [] _ _ eq_refl); [reflexivity|discriminate].
Defined.

(** ** Subscription and teardown *)










(** ** One listener per session *)

Section OneListener.

Variable api : Api.
Variable flag : bool.

Lemma step_listeners (a : Action) (s s' : Session) :
  step api flag a s = Ok s' ->
  (length (listeners (readEndpoint s)) <= 1)%nat ->
  (length (listeners (readEndpoint s')) <= 1)%nat.
Proof.
  intros H Hle. destruct (step_facts api flag a s s' H) as (_ & _ & _ & Hl & _).
  destruct Hl as [->|[->|(l & -> & _)]]; simpl; lia.
Qed.

Lemma run_listeners (tr : list Action) (s s' : Session) :
  run api flag tr s = Ok s' ->
  (length (listeners (readEndpoint s)) <= 1)%nat ->
  (length (listeners (readEndpoint s')) <= 1)%nat.
Proof.
  revert s. induction tr as [|a tr IH]; intros s; simpl.
  - intros [= <-]. auto.
  - destruct (step api flag a s) as [s1|] eqn:E; simpl; [|discriminate].
    intros H Hle. apply (IH s1 H). apply (step_listeners a s s1 E Hle).
Qed.

Lemma step_dropped (p : nat) (a : Action) (s s' : Session) :
  step api flag a s = Ok s' -> dropped p s -> dropped p s'.
Proof.
  intros H (Hlt & Hls & Hnf).
  destruct (step_facts api flag a s s' H) as (_ & Hlen & Hprom & Hl & _).
  split; [lia|]. split.
  - destruct Hl as [->|[->|(l & -> & Hlp)]]; [exact Hls|constructor|].
    constructor; [lia|constructor].
  - intros f Hf.
    destruct (Hprom p Hlt) as [Hsame|(_ & [(f' & l & _ & Hin & Hlp & _)
                                          |(d & ms & _ & _ & _ & Hr)])].
    + apply (Hnf f). congruence.
    + rewrite Forall_forall in Hls. apply (Hls l Hin Hlp).
    + congruence.
Qed.

Lemma run_dropped (p : nat) (tr : list Action) (s s' : Session) :
  run api flag tr s = Ok s' -> dropped p s -> dropped p s'.
Proof.
  revert s. induction tr as [|a tr IH]; intros s; simpl.
  - intros [= <-]. auto.
  - destruct (step api flag a s) as [s1|] eqn:E; simpl; [|discriminate].
    intros H Hd. apply (IH s1 H). apply (step_dropped p a s s1 E Hd).
Qed.

End OneListener.

Lemma arm_drops (api : Api) (flag : bool) (a : Action) (s s1 : Session)
    (p : nat) :
  arms a -> step api flag a s = Ok s1 ->
  promises s !! p = Some Pending ->
  dropped p s1
  /\ exists l, listeners (readEndpoint s1) = [l]
               /\ listener_promise l = length (promises s).
Proof.
  intros Ha H Hp.
  assert (Hlt : (p < length (promises s))%nat)
    by (apply lookup_lt_Some in Hp; exact Hp).
  assert (Harm : exists l, armed s s1 l
                           /\ listener_promise l = length (promises s)
                           /\ promises s1 = promises s ++ [Pending]).
  { destruct a as [[]|type| |]; try contradiction; simpl in H.
    - destruct (getDeviceInfo api s) as [[s' p']|] eqn:E; simpl in H;
        [|discriminate].
      injection H as <-.
      apply getDeviceInfo_inv in E as (-> & Hps & _ & _ & Harm).
      eexists. split; [exact Harm|]. split; [reflexivity|exact Hps].
    - injection H as <-.
      destruct (readFromDeviceUntil_inv type s) as (Hw & Hps & _ & _ & Harm).
      eexists. split; [exact Harm|]. split; [exact Hw|exact Hps]. }
  destruct Harm as (l & (Hl & _) & Hlp & Hps).
  split; [|exists l; auto].
  split; [rewrite Hps, length_app; simpl; lia|]. split.
  - rewrite Hl. constructor; [lia|constructor].
  - intros f. rewrite Hps, lookup_app_l by exact Hlt. rewrite Hp. discriminate.
Qed.

(** C9.  Arming a wait leaves the new listener as the only ['data'] listener,
    whatever was subscribed before; hence a session that starts with at most
    one listener never has more than one; and a wait that was still pending
    when another was armed is never fulfilled afterwards, whatever frames
    arrive. *)
Theorem arming_replaces_listener (api : Api) (flag : bool) :
  (forall (s : Session) (type : JsValue),
      listeners (readEndpoint (readFromDeviceUntil type s).1)
      = [UntilListener type (readFromDeviceUntil type s).2])
  /\ (forall (s s1 : Session) (p : nat),
      getDeviceInfo api s = Ok (s1, p) ->
      listeners (readEndpoint s1) = [DeviceInfoListener p])
  /\ (forall (tr : list Action) (s s' : Session),
      (length (listeners (readEndpoint s)) <= 1)%nat ->
      run api flag tr s = Ok s' ->
      (length (listeners (readEndpoint s')) <= 1)%nat)
  /\ (forall (s s1 s2 : Session) (p : nat) (a : Action) (tr : list Action)
             (f : Buffer),
      promises s !! p = Some Pending ->
      arms a ->
      step api flag a s = Ok s1 ->
      run api flag tr s1 = Ok s2 ->
      promises s2 !! p <> Some (Fulfilled f)).
Proof.
  split; [|split; [|split]].
  - intros s type. reflexivity.
  - intros s s1 p H. apply getDeviceInfo_inv in H as (_ & _ & _ & _ & Ha).
    apply Ha.
  - intros tr s s' Hle H. apply (run_listeners api flag tr s s' H Hle).
  - intros s s1 s2 p a tr f Hp Ha Hstep Hrun.
    destruct (arm_drops api flag a s s1 p Ha Hstep Hp) as [Hd _].
    destruct (run_dropped api flag p tr s1 s2 Hrun Hd) as (_ & _ & Hnf).
    apply Hnf.
Qed.

Lemma arming_replaces_listener_witness :
  exists s1 s2 s3,
    getDeviceInfo sample_API init = Ok (s1, 0%nat)
    /\ promises s1 !! 0%nat = Some Pending
    /\ step sample_API true (ReadUntil (JBuf [1; 0])) s1 = Ok s2
    /\ run sample_API true [Data [128; 0; 0]; Elapse 1900] s2 = Ok s3
    /\ promises s3 !! 0%nat <> Some (Fulfilled [128; 0; 0])
    /\ (length (listeners (readEndpoint s3)) <= 1)%nat.
Proof.
  destruct (arming_replaces_listener sample_API true) as (_ & _ & H3 & H4).
  let r := eval vm_compute in (getDeviceInfo sample_API init) in
  match r with Ok (?x, _) => pose (s1 := x) end.
  let r := eval vm_compute in (step sample_API true (ReadUntil (JBuf [1; 0])) s1) in
  match r with Ok ?x => pose (s2 := x) end.
  let r := eval vm_compute in
    (run sample_API true [Data [128; 0; 0]; Elapse 1900] s2) in
  match r with Ok ?x => pose (s3 := x) end.
  exists s1, s2, s3.
  assert (Hg : getDeviceInfo sample_API init = Ok (s1, 0%nat)) by reflexivity.
  assert (Hp : promises s1 !! 0%nat = Some Pending) by reflexivity.
  assert (Hs : step sample_API true (ReadUntil (JBuf [1; 0])) s1 = Ok s2)
    by reflexivity.
  assert (Hr : run sample_API true [Data [128; 0; 0]; Elapse 1900] s2 = Ok s3)
    by reflexivity.
  split; [exact Hg|]. split; [exact Hp|]. split; [exact Hs|].
  split; [exact Hr|]. split.
  - apply (H4 s1 s2 s3 0%nat (ReadUntil (JBuf [1; 0])) _ [128; 0; 0] Hp I Hs Hr).
  - apply (H3 _ s2 s3 (le_n 1) Hr).
Defined.

(** * Further properties of the code *)

(** ** Encoder: what a method accepts, and what it transfers *)

Lemma setWriteBufferByte_inv (byte : nat) (data : Z) (s s' : Session) :
  setWriteBufferByte byte data s = Ok s' ->
  byte_ok data = true
  /\ transferred s' = transferred s
  /\ length (buffer s') = length (buffer s).
Proof.
  intros H. destruct (byte_ok data) eqn:E.
  - split; [reflexivity|]. revert H. unfold setWriteBufferByte.
    destruct (Buffer_writeUInt8 (buffer s) data byte) as [b|] eqn:Eb; simpl;
      [|discriminate].
    intros [= <-]. simpl. split; [reflexivity|].
    revert Eb. unfold Buffer_writeUInt8.
    destruct ((255 <? data) || (data <? 0)); [discriminate|].
    destruct (length (buffer s) <? byte + 1)%nat; [discriminate|].
    intros [= <-]. apply length_insert.
  - rewrite (setWriteBufferByte_bad byte data s E) in H. discriminate H.
Qed.

Ltac write_inv H :=
  repeat match type of H with
  | context [setWriteBufferByte ?b ?d ?s] =>
      let s1 := fresh "s" in
      let E := fresh "E" in
      destruct (setWriteBufferByte b d s) as [s1|] eqn:E; cbn [bind] in H;
      [apply setWriteBufferByte_inv in E as (? & ? & ?) | discriminate H]
  end.

(** What a method that returns has done on the write side, for any constants
    object. *)
Lemma invoke_write_side (api : Api) (cmd : Command) (s s' : Session) :
  invoke api cmd s = Ok s' ->
  byte_ok (opcode (API_COMMAND api) cmd) = true
  /\ well_formed cmd = true
  /\ transferred s' = transferred s ++ [buffer s']
  /\ length (buffer s') = documented_length cmd.
Proof.
  destruct cmd; unfold invoke, simpleColor, color, colorFade, strobe, wave,
    pattern, getDeviceInfo, well_formed; intros H; cbv zeta in H; write_inv H;
    injection H as <-;
    match goal with
    | E : length _ = length (buffer (resetWriteBuffer ?n s)) |- _ =>
        assert (length (buffer (resetWriteBuffer n s)) = n) by reflexivity;
        assert (transferred (resetWriteBuffer n s) = transferred s)
          by reflexivity
    end;
    cbn [opcode fields forallb documented_length new_Promise subscribe fst
         startPoll on_data removeAllListeners with_readEndpoint with_promises
         writeToDevice with_transferred transferred buffer];
    (split; [assumption|]);
    (split; [repeat match goal with
                    | E : byte_ok _ = true |- _ => rewrite ?E; clear E
                    end; reflexivity|]);
    (split; [f_equal; congruence|congruence]).
Qed.

(** X1.  On integer arguments (the fields of a [Command] are integers;
    fractions, [NaN] and [undefined], which [writeUInt8] coerces, are outside
    the embedding) no method wraps a value around: whatever the constants, if
    it returns then its opcode and every argument lie in 0..255.  With the
    documented offsets the converse holds too: a command whose opcode or some
    argument is an integer outside 0..255 is rejected with a [RangeError]. *)
Theorem encoder_rejects_out_of_range (api : Api) (cmd : Command) (s : Session) :
  (forall s', invoke api cmd s = Ok s' ->
              byte_ok (opcode (API_COMMAND api) cmd) = true
              /\ well_formed cmd = true)
  /\ (API_BYTE api = documented_BYTE ->
      byte_ok (opcode (API_COMMAND api) cmd) && well_formed cmd = false ->
      invoke api cmd s = Throw RangeError).
Proof.
  split.
  - intros s' H. apply invoke_write_side in H as (H1 & H2 & _). auto.
  - intros HB Hbad. rewrite (invoke_spec api cmd s HB), Hbad. reflexivity.
Qed.

Lemma encoder_rejects_out_of_range_witness :
  API_BYTE sample_API = documented_BYTE
  /\ invoke sample_API (SetColorNoFade 1 256 0 0) init = Throw RangeError
  /\ invoke sample_API (Wave 2 0 (-1) 0 0 0) init = Throw RangeError.
Proof.
  split; [reflexivity|].
  split.
  - apply (encoder_rejects_out_of_range sample_API (SetColorNoFade 1 256 0 0)
             init); reflexivity.
  - apply (encoder_rejects_out_of_range sample_API (Wave 2 0 (-1) 0 0 0) init);
      reflexivity.
Defined.

(** X2.  Whatever the constants, a method that returns has handed exactly one
    frame to the write endpoint, namely the buffer it has just built, of the
    length the method allocates; and every method but [getDeviceInfo] leaves
    the read endpoint, the promises and the timers as they were. *)
Theorem command_transfers_once (api : Api) (cmd : Command) (s s' : Session) :
  invoke api cmd s = Ok s' ->
  transferred s' = transferred s ++ [buffer s']
  /\ length (buffer s') = documented_length cmd
  /\ (cmd <> DeviceInfo -> same_async s s').
Proof.
  intros H.
  destruct (invoke_write_side api cmd s s' H) as (_ & _ & Ht & Hl).
  split; [exact Ht|]. split; [exact Hl|].
  intros Hne. apply invoke_async in H as (s0 & Ha & ->).
  destruct cmd; try exact Ha. contradiction.
Qed.

Lemma command_transfers_once_witness :
  exists s',
    invoke sample_API (Pattern 3 2) init = Ok s'
    /\ transferred s' = [[Some 0; Some 0]; buffer s']
    /\ length (buffer s') = 3%nat
    /\ same_async init s'.
Proof.
  eexists.
  assert (H : invoke sample_API (Pattern 3 2) init = Ok _) by reflexivity.
  destruct (command_transfers_once sample_API (Pattern 3 2) init _ H)
    as (H1 & H2 & H3).
  split; [exact H|]. split; [exact H1|]. split; [exact H2|].
  apply H3. discriminate.
Defined.

(** X3.  Frames reach the write endpoint in the order the methods are
    invoked: with the documented offsets, a sequence of commands that all fit
    runs to the end and appends their documented frames, in that order. *)
Theorem frames_in_invocation_order (api : Api) (flag : bool)
    (cmds : list Command) (s : Session) :
  API_BYTE api = documented_BYTE ->
  Forall (fun cmd => byte_ok (opcode (API_COMMAND api) cmd) && well_formed cmd
                     = true) cmds ->
  exists s',
    run api flag (Invoke <$> cmds) s = Ok s'
    /\ transferred s'
       = transferred s
         ++ ((fun cmd => Some <$> documented_frame (API_COMMAND api) cmd)
               <$> cmds).
Proof.
  intros HB. revert s. induction cmds as [|cmd cmds IH]; intros s Hall.
  - exists s. split; [reflexivity|]. simpl. rewrite app_nil_r. reflexivity.
  - apply Forall_cons in Hall as [Hc Hall]. simpl.
    rewrite (invoke_spec api cmd s HB), Hc. simpl.
    destruct (IH (after_transfer cmd
                    (encoded (documented_frame (API_COMMAND api) cmd) s)) Hall)
      as (s' & Hrun & Ht).
    exists s'. split; [exact Hrun|]. rewrite Ht.
    destruct (after_transfer_write_state cmd
                (encoded (documented_frame (API_COMMAND api) cmd) s))
      as (_ & _ & ->).
    simpl. rewrite <- app_assoc. reflexivity.
Qed.

Lemma frames_in_invocation_order_witness :
  API_BYTE sample_API = documented_BYTE
  /\ exists s',
      run sample_API true
          (Invoke <$> [SetColorSimple 82; DeviceInfo; Pattern 1 0]) init = Ok s'
      /\ transferred s'
         = [[Some 0; Some 0]; [Some 0; Some 82]; [Some 128];
            [Some 6; Some 1; Some 0]].
Proof.
  split; [reflexivity|].
  destruct (frames_in_invocation_order sample_API true
              [SetColorSimple 82; DeviceInfo; Pattern 1 0] init eq_refl)
    as (s' & H1 & H2).
  - repeat constructor.
  - exists s'. split; [exact H1|exact H2].
Defined.

(** ** Classifier and lookup: edge behaviour *)

(** X4.  A reply shorter than two bytes is not classified: as soon as the
    reply table has a first signature to compare with, [compare] raises a
    [RangeError], also for a one-byte reply that is the [DEVICE_INFO]
    opcode. *)
Theorem findApiReply_short_buffer (api : Api) (buffer : Buffer)
    (key : string) (sig : Buffer) (rest : Table) :
  API_REPLY api = (key, JBuf sig) :: rest ->
  toUpperCase key = key ->
  (length buffer < 2)%nat ->
  findApiReply api buffer = Throw RangeError.
Proof.
  intros HR Hup Hlen. unfold findApiReply. rewrite HR. simpl.
  unfold getApiValue. rewrite API_REPLY_entry, HR, Hup.
  unfold has_key. simpl. rewrite String.eqb_refl. simpl.
  destruct (length buffer <? 2)%nat eqn:E; [|apply Nat.ltb_ge in E; lia].
  rewrite orb_true_r. reflexivity.
Qed.

Lemma findApiReply_short_buffer_witness :
  API_REPLY sample_API = ("OK"%string, JBuf [1; 0]) :: [("BUSY"%string, JBuf [1; 1])]
  /\ findApiReply sample_API [128] = Throw RangeError
  /\ findApiReply sample_API [] = Throw RangeError.
Proof.
  split; [reflexivity|].
  split.
  - apply (findApiReply_short_buffer sample_API [128] "OK" [1; 0] _ eq_refl
             eq_refl). simpl. lia.
  - apply (findApiReply_short_buffer sample_API [] "OK" [1; 0] _ eq_refl
             eq_refl). simpl. lia.
Defined.

(** X5.  The keys of the reply table have to be in upper case: if the first
    key is not bound under its upper-cased spelling, [getApiValue] answers
    [null] for it and [findApiReply] raises a [TypeError] on every buffer. *)
Theorem findApiReply_lowercase_key (api : Api) (buffer : Buffer)
    (key : string) (v : JsValue) (rest : Table) :
  API_REPLY api = (key, v) :: rest ->
  assoc (toUpperCase key) (API_REPLY api) = None ->
  getApiValue api "reply" key = Ok JNull
  /\ findApiReply api buffer = Throw TypeError.
Proof.
  intros HR Hnone.
  assert (Hg : getApiValue api "reply" key = Ok JNull).
  { unfold getApiValue. rewrite API_REPLY_entry. unfold has_key.
    rewrite Hnone. reflexivity. }
  split; [exact Hg|].
  unfold findApiReply. rewrite HR. cbn [Object_keys map fst findApiReply_loop].
  rewrite Hg. reflexivity.
Qed.

Lemma findApiReply_lowercase_key_witness :
  API_REPLY lowercase_API = [("ok"%string, JBuf [1; 0])]
  /\ getApiValue lowercase_API "reply" "ok" = Ok JNull
  /\ findApiReply lowercase_API [1; 0; 9] = Throw TypeError.
Proof.
  split; [reflexivity|].
  apply (findApiReply_lowercase_key lowercase_API [1; 0; 9] "ok" (JBuf [1; 0]) []);
    reflexivity.
Defined.

(** X7.  Classification and lookup agree: with a usable reply table, a key
    that [findApiReply] returns for a buffer of at least two bytes is either
    a key that [getApiValue('reply', key)] maps to a signature with the
    buffer's first two bytes, or it is the fallback ["DEVICE_INFO"], given
    only when no signature matches and byte 0 is the opcode. *)
Theorem findApiReply_key_looks_up (api : Api) (buffer : Buffer) (key : string) :
  REPLY_ok (API_REPLY api) -> (2 <= length buffer)%nat ->
  findApiReply api buffer = Ok key ->
  (exists sig, getApiValue api "reply" key = Ok sig
               /\ signature_matches buffer sig)
  \/ (key = "DEVICE_INFO"%string
      /\ isDeviceInfoBuffer api buffer = true
      /\ Forall (fun kv => ~ signature_matches buffer kv.2) (API_REPLY api)).
Proof.
  intros HR Hb H. rewrite (findApiReply_spec api buffer HR Hb) in H.
  destruct (first_match buffer (API_REPLY api)) as [k|] eqn:E.
  - injection H as ->. left.
    destruct (first_match_Some _ _ _ E) as (sig & Hin & Hm).
    exists sig. split; [|exact Hm].
    destruct HR as [Hall Hnd]. rewrite Forall_forall in Hall.
    destruct (Hall (key, sig)) as [Hup _]; [apply list_elem_of_In, Hin|].
    apply (getApiValue_reply_key api key sig Hnd Hin Hup).
  - right. apply first_match_None in E.
    destruct (isDeviceInfoBuffer api buffer); [|discriminate].
    injection H as <-. auto.
Qed.

Lemma findApiReply_key_looks_up_witness :
  REPLY_ok (API_REPLY sample_API)
  /\ findApiReply sample_API [1; 1; 4] = Ok "BUSY"%string
  /\ exists sig, getApiValue sample_API "reply" "BUSY" = Ok sig
                 /\ signature_matches [1; 1; 4] sig.
Proof.
  split; [exact sample_REPLY_ok|].
  assert (H : findApiReply sample_API [1; 1; 4] = Ok "BUSY"%string)
    by reflexivity.
  split; [exact H|].
  destruct (findApiReply_key_looks_up sample_API [1; 1; 4] "BUSY"
              sample_REPLY_ok) as [Hs|(Hk & _)];
    [simpl; lia|exact H|exact Hs|discriminate Hk].
Defined.

(** ** Listeners: frames after [getDeviceInfo], failures of the other listener *)

Lemma settle_not_pending (p : nat) (v : PromiseState) (s : Session) :
  promises s !! p <> Some Pending -> settle p v s = s.
Proof.
  intros H. unfold settle. destruct (promises s !! p) as [[]|]; congruence.
Qed.

Lemma deviceInfo_frames (api : Api) (flag : bool) (p : nat)
    (frames : list Buffer) (s1 : Session) :
  listeners (readEndpoint s1) = [DeviceInfoListener p] ->
  exists s2,
    run api flag (Data <$> frames) s1 = Ok s2
    /\ listeners (readEndpoint s2) = [DeviceInfoListener p]
    /\ calls_stopPoll (readEndpoint s2)
       = (calls_stopPoll (readEndpoint s1)
          + length (List.filter (isDeviceInfoBuffer api) frames))%nat
    /\ promises s2 !! p
       = match promises s1 !! p with
         | Some Pending =>
             Some (match List.filter (isDeviceInfoBuffer api) frames with
                   | f :: _ => Fulfilled f
                   | [] => Pending
                   end)
         | other => other
         end
    /\ (List.filter (isDeviceInfoBuffer api) frames = [] -> s2 = s1).
Proof.
  revert s1. induction frames as [|f frames IH]; intros s1 Hl.
  - exists s1. simpl. repeat split; auto.
    destruct (promises s1 !! p) as [[]|]; reflexivity.
  - simpl. unfold emit_data. rewrite Hl. cbn [call_listeners].
    unfold run_listener. cbn [listener_accepts bind listener_promise].
    destruct (isDeviceInfoBuffer api f) eqn:Ef; cbn [bind].
    + set (s' := resolve p f (stopPoll s1)).
      assert (He : readEndpoint s' = readEndpoint (stopPoll s1)).
      { unfold s', resolve. apply settle_frame. }
      destruct (IH s') as (s2 & Hrun & Hl2 & Hc2 & Hp2 & _).
      { rewrite He. simpl. exact Hl. }
      exists s2. split; [exact Hrun|]. split; [exact Hl2|].
      split; [rewrite Hc2, He; simpl; lia|].
      split; [|discriminate].
      rewrite Hp2. unfold s', resolve.
      destruct (promises s1 !! p) as [[]|] eqn:Ep.
      * rewrite settle_pending by exact Ep. reflexivity.
      * rewrite settle_not_pending by (simpl; congruence). simpl.
        rewrite Ep. reflexivity.
      * rewrite settle_not_pending by (simpl; congruence). simpl.
        rewrite Ep. reflexivity.
      * rewrite settle_not_pending by (simpl; congruence). simpl.
        rewrite Ep. reflexivity.
    + destruct (IH s1 Hl) as (s2 & Hrun & Hl2 & Hc2 & Hp2 & Hs2).
      exists s2. repeat split; auto.
Qed.

(** X8.  After [getDeviceInfo], with frames of at least one byte arriving
    and nothing else happening: the wait is fulfilled with the first frame
    whose byte 0 is the [DEVICE_INFO] opcode and stays pending if there is
    none; frames that are not accepted change nothing at all; and because the
    listener stays subscribed, [stopPoll] is called once for every accepted
    frame, also for those that come after the wait has been fulfilled. *)
Theorem getDeviceInfo_first_frame_wins (api : Api) (flag : bool)
    (s s1 : Session) (p : nat) (frames : list Buffer) :
  getDeviceInfo api s = Ok (s1, p) ->
  Forall (fun frame : Buffer => frame <> []) frames ->
  exists s2,
    run api flag (Data <$> frames) s1 = Ok s2
    /\ promises s2 !! p
       = Some (match List.filter (isDeviceInfoBuffer api) frames with
               | f :: _ => Fulfilled f
               | [] => Pending
               end)
    /\ calls_stopPoll (readEndpoint s2)
       = (calls_stopPoll (readEndpoint s)
          + length (List.filter (isDeviceInfoBuffer api) frames))%nat
    /\ listeners (readEndpoint s2) = [DeviceInfoListener p]
    /\ (List.filter (isDeviceInfoBuffer api) frames = [] -> s2 = s1).
Proof.
  intros H _.
  apply getDeviceInfo_inv in H
    as (_ & _ & _ & _ & Hl & _ & Hp & _ & _ & _ & Hstop).
  simpl in Hp.
  destruct (deviceInfo_frames api flag p frames s1 Hl)
    as (s2 & Hrun & Hl2 & Hc2 & Hp2 & Hs2).
  exists s2. split; [exact Hrun|]. rewrite Hp in Hp2.
  split; [exact Hp2|]. split; [rewrite Hc2, Hstop; reflexivity|].
  split; [exact Hl2|exact Hs2].
Qed.

Lemma getDeviceInfo_first_frame_wins_witness :
  Forall (fun frame : Buffer => frame <> []) [[1; 0]; [128; 7]; [5]; [128; 9]]
  /\ exists s1 s2,
      getDeviceInfo sample_API init = Ok (s1, 0%nat)
      /\ run sample_API true
             (Data <$> [[1; 0]; [128; 7]; [5]; [128; 9]]) s1 = Ok s2
      /\ promises s2 !! 0%nat = Some (Fulfilled [128; 7])
      /\ calls_stopPoll (readEndpoint s2) = 2%nat.
Proof.
  assert (Hne : Forall (fun frame : Buffer => frame <> [])
                       [[1; 0]; [128; 7]; [5]; [128; 9]])
    by (repeat constructor; discriminate).
  split; [exact Hne|].
  eexists.
  destruct (getDeviceInfo_first_frame_wins sample_API true init _ 0
              [[1; 0]; [128; 7]; [5]; [128; 9]] eq_refl Hne)
    as (s2 & H1 & H2 & H3 & _).
  exists s2. split; [reflexivity|]. split; [exact H1|].
  split; [exact H2|exact H3].
Defined.

(** X9.  The listener of [readFromDeviceUntil] fails on input [compare]
    refuses: a frame, or a [type], shorter than two bytes raises a
    [RangeError] inside the listener, and a [type] that is not a buffer (the
    [null] that [getApiValue] returns for a missing key, say) raises a
    [TypeError] on every frame. *)
Theorem readFromDeviceUntil_listener_throws (api : Api) (type : JsValue)
    (frame : Buffer) (s : Session) :
  (forall t : Buffer,
      type = JBuf t -> (length frame < 2 \/ length t < 2)%nat ->
      emit_data api frame (readFromDeviceUntil type s).1 = Throw RangeError)
  /\ ((forall t : Buffer, type <> JBuf t) ->
      emit_data api frame (readFromDeviceUntil type s).1 = Throw TypeError).
Proof.
  assert (Hl : listeners (readEndpoint (readFromDeviceUntil type s).1)
               = [UntilListener type (readFromDeviceUntil type s).2])
    by reflexivity.
  split.
  - intros t -> Hshort. unfold emit_data. rewrite Hl. cbn [call_listeners].
    unfold run_listener, listener_accepts, Buffer_compare.
    destruct ((length t <? 2)%nat || (length frame <? 2)%nat) eqn:E;
      [reflexivity|].
    apply orb_false_iff in E as [E1 E2].
    apply Nat.ltb_ge in E1. apply Nat.ltb_ge in E2. lia.
  - intros Hnb. unfold emit_data. rewrite Hl. cbn [call_listeners].
    unfold run_listener, listener_accepts, Buffer_compare.
    destruct type as [| |t]; try reflexivity.
    exfalso. apply (Hnb t). reflexivity.
Qed.

Lemma readFromDeviceUntil_listener_throws_witness :
  emit_data sample_API [1] (readFromDeviceUntil (JBuf [1; 0]) init).1
  = Throw RangeError
  /\ emit_data sample_API [1; 0; 3] (readFromDeviceUntil JNull init).1
     = Throw TypeError.
Proof.
  split.
  - apply (readFromDeviceUntil_listener_throws sample_API (JBuf [1; 0]) [1] init)
      with (t := [1; 0]); [reflexivity|]. left. simpl. lia.
  - apply (readFromDeviceUntil_listener_throws sample_API JNull [1; 0; 3] init).
    intros t. discriminate.
Defined.

(** ** The legacy encoder against the primary one *)

Lemma Buffer_writeUInt8_ok (buff : WriteBuffer) (value : Z) (offset : nat) :
  byte_ok value = true -> (offset < length buff)%nat ->
  Buffer_writeUInt8 buff value offset = Ok (<[offset := Some value]> buff).
Proof.
  intros Hv Ho. unfold Buffer_writeUInt8, byte_ok in *.
  apply andb_true_iff in Hv as [H0 H255].
  apply Z.leb_le in H0. apply Z.leb_le in H255.
  destruct (255 <? value) eqn:E1; [apply Z.ltb_lt in E1; lia|].
  destruct (value <? 0) eqn:E2; [apply Z.ltb_lt in E2; lia|].
  destruct (length buff <? offset + 1)%nat eqn:E3;
    [apply Nat.ltb_lt in E3; lia|].
  reflexivity.
Qed.

Lemma Buffer_writeUInt8_bad (buff : WriteBuffer) (value : Z) (offset : nat) :
  byte_ok value = false -> Buffer_writeUInt8 buff value offset = Throw RangeError.
Proof.
  intros Hv. unfold Buffer_writeUInt8, byte_ok in *.
  apply andb_false_iff in Hv as [H|H]; apply Z.leb_gt in H.
  - destruct (255 <? value); [reflexivity|].
    destruct (value <? 0) eqn:E2; [reflexivity|apply Z.ltb_ge in E2; lia].
  - destruct (255 <? value) eqn:E1; [reflexivity|apply Z.ltb_ge in E1; lia].
Qed.

Ltac legacy_write :=
  repeat (first
    [ rewrite Buffer_writeUInt8_ok
        by (first [reflexivity | assumption | cbn; lia])
    | rewrite Buffer_writeUInt8_bad by assumption ];
    cbn [bind]).

Lemma flashColor_spec (r g b : Z) (s : Session) :
  flashColor r g b s
  = if byte_ok r && byte_ok g && byte_ok b
    then Ok (with_transferred
               (transferred s ++ [Some <$> [3; 255; r; g; b; 10; 0; 3]]) s)
    else Throw RangeError.
Proof.
  unfold flashColor.
  destruct (byte_ok r) eqn:Er, (byte_ok g) eqn:Eg, (byte_ok b) eqn:Eb;
    cbv zeta; legacy_write; reflexivity.
Qed.

Lemma setColor_spec (r g b : Z) (s : Session) :
  setColor r g b s
  = if byte_ok r && byte_ok g && byte_ok b
    then Ok (with_transferred
               (transferred s ++ [Some <$> [1; 255; r; g; b]]) s)
    else Throw RangeError.
Proof.
  unfold setColor.
  destruct (byte_ok r) eqn:Er, (byte_ok g) eqn:Eg, (byte_ok b) eqn:Eb;
    cbv zeta; legacy_write; reflexivity.
Qed.

(** X10.  The legacy [flashColor(r, g, b)] is the primary [strobe] on all
    leds with time 10 and 3 repeats, provided the constants have the
    documented offsets and [STROBE] is 3: both fail with a [RangeError] when
    a colour channel does not fit a byte, and otherwise both hand the same
    eight bytes to the endpoint.  The legacy method builds them in a buffer
    of its own and leaves the rest of the session alone. *)
Theorem flashColor_is_strobe (api : Api) (r g b : Z) (s : Session) :
  API_BYTE api = documented_BYTE ->
  COMMAND.STROBE (API_COMMAND api) = 3 ->
  (byte_ok r && byte_ok g && byte_ok b = true ->
   exists s1 s2,
     flashColor r g b s = Ok s1
     /\ strobe api 255 r g b 10 3 s = Ok s2
     /\ transferred s1 = transferred s ++ [Some <$> [3; 255; r; g; b; 10; 0; 3]]
     /\ transferred s2 = transferred s1
     /\ buffer s1 = buffer s /\ same_async s s1)
  /\ (byte_ok r && byte_ok g && byte_ok b = false ->
      flashColor r g b s = Throw RangeError
      /\ strobe api 255 r g b 10 3 s = Throw RangeError).
Proof.
  intros HB Hop.
  pose proof (invoke_spec api (Strobe 255 r g b 10 3) s HB) as Hs.
  cbn [invoke opcode] in Hs. rewrite Hop in Hs.
  assert (Hwf : well_formed (Strobe 255 r g b 10 3)
                = byte_ok r && byte_ok g && byte_ok b).
  { unfold well_formed. simpl.
    destruct (byte_ok r), (byte_ok g), (byte_ok b); reflexivity. }
  rewrite Hwf in Hs. rewrite flashColor_spec, Hs. split; intros ->; simpl.
  - eexists. eexists. split; [reflexivity|]. split; [reflexivity|].
    simpl. rewrite Hop. repeat split; reflexivity.
  - split; reflexivity.
Qed.

Lemma flashColor_is_strobe_witness :
  API_BYTE sample_API = documented_BYTE
  /\ COMMAND.STROBE (API_COMMAND sample_API) = 3
  /\ (exists s1 s2,
        flashColor 255 128 0 init = Ok s1
        /\ strobe sample_API 255 255 128 0 10 3 init = Ok s2
        /\ transferred s2 = transferred s1)
  /\ flashColor 0 300 0 init = Throw RangeError.
Proof.
  split; [reflexivity|]. split; [reflexivity|].
  split.
  - destruct (flashColor_is_strobe sample_API 255 128 0 init eq_refl eq_refl)
      as [H _].
    destruct (H eq_refl) as (s1 & s2 & H1 & H2 & _ & H4 & _).
    exists s1, s2. auto.
  - destruct (flashColor_is_strobe sample_API 0 300 0 init eq_refl eq_refl)
      as [_ H].
    apply (H eq_refl).
Defined.

(** X11.  The legacy [setColor(r, g, b)] is the primary [color] on all leds,
    provided the constants have the documented offsets and
    [SET_COLOR_NO_FADE] is 1: both fail with a [RangeError] when a colour
    channel does not fit a byte, and otherwise both hand the same five bytes
    to the endpoint. *)
Theorem setColor_is_color (api : Api) (r g b : Z) (s : Session) :
  API_BYTE api = documented_BYTE ->
  COMMAND.SET_COLOR_NO_FADE (API_COMMAND api) = 1 ->
  (byte_ok r && byte_ok g && byte_ok b = true ->
   exists s1 s2,
     setColor r g b s = Ok s1
     /\ color api 255 r g b s = Ok s2
     /\ transferred s1 = transferred s ++ [Some <$> [1; 255; r; g; b]]
     /\ transferred s2 = transferred s1
     /\ buffer s1 = buffer s /\ same_async s s1)
  /\ (byte_ok r && byte_ok g && byte_ok b = false ->
      setColor r g b s = Throw RangeError
      /\ color api 255 r g b s = Throw RangeError).
Proof.
  intros HB Hop.
  pose proof (invoke_spec api (SetColorNoFade 255 r g b) s HB) as Hs.
  cbn [invoke opcode] in Hs. rewrite Hop in Hs.
  assert (Hwf : well_formed (SetColorNoFade 255 r g b)
                = byte_ok r && byte_ok g && byte_ok b).
  { unfold well_formed. simpl.
    destruct (byte_ok r), (byte_ok g), (byte_ok b); reflexivity. }
  rewrite Hwf in Hs. rewrite setColor_spec, Hs. split; intros ->; simpl.
  - eexists. eexists. split; [reflexivity|]. split; [reflexivity|].
    simpl. rewrite Hop. repeat split; reflexivity.
  - split; reflexivity.
Qed.

Lemma setColor_is_color_witness :
  API_BYTE sample_API = documented_BYTE
  /\ COMMAND.SET_COLOR_NO_FADE (API_COMMAND sample_API) = 1
  /\ (exists s1 s2,
        setColor 0 255 0 init = Ok s1
        /\ color sample_API 255 0 255 0 init = Ok s2
        /\ transferred s2 = transferred s1)
  /\ setColor 0 0 (-5) init = Throw RangeError.
Proof.
  split; [reflexivity|]. split; [reflexivity|].
  split.
  - destruct (setColor_is_color sample_API 0 255 0 init eq_refl eq_refl)
      as [H _].
    destruct (H eq_refl) as (s1 & s2 & H1 & H2 & _ & H4 & _).
    exists s1, s2. auto.
  - destruct (setColor_is_color sample_API 0 0 (-5) init eq_refl eq_refl)
      as [_ H].
    apply (H eq_refl).
Defined.

(** ** Writing while a wait is pending *)

Lemma run_invokes_async (api : Api) (flag : bool) (cmds : list Command)
    (s s' : Session) :
  Forall (fun cmd => cmd <> DeviceInfo) cmds ->
  run api flag (Invoke <$> cmds) s = Ok s' ->
  same_async s s'.
Proof.
  revert s. induction cmds as [|cmd cmds IH]; intros s Hall; simpl.
  - intros [= <-]. repeat split.
  - apply Forall_cons in Hall as [Hc Hall].
    destruct (invoke api cmd s) as [s1|] eqn:E; simpl; [|discriminate].
    intros H. apply (same_async_trans s s1 s').
    + apply invoke_async in E as (s0 & Ha & ->).
      destruct cmd; try exact Ha. contradiction.
    + apply (IH s1 Hall H).
Qed.

(** X12.  Colour, strobe, wave and pattern commands issued while the wait of
    [getDeviceInfo] is pending do not disturb it: after any such commands
    the first frame whose byte 0 is the [DEVICE_INFO] opcode still fulfils the
    wait and stops the poll. *)
Theorem getDeviceInfo_survives_writes (api : Api) (flag : bool)
    (s s1 s2 : Session) (p : nat) (cmds : list Command) (frame : Buffer) :
  getDeviceInfo api s = Ok (s1, p) ->
  Forall (fun cmd => cmd <> DeviceInfo) cmds ->
  run api flag (Invoke <$> cmds) s1 = Ok s2 ->
  isDeviceInfoBuffer api frame = true ->
  promises s2 !! p = Some Pending
  /\ exists s3,
      emit_data api frame s2 = Ok s3
      /\ promises s3 !! p = Some (Fulfilled frame)
      /\ pollActive (readEndpoint s3) = false
      /\ transferred s3 = transferred s2.
Proof.
  intros Hg Hall Hrun Hacc.
  apply getDeviceInfo_inv in Hg as (_ & _ & _ & _ & Hl & _ & Hp & _).
  simpl in Hp.
  destruct (run_invokes_async api flag cmds s1 s2 Hall Hrun)
    as (He & Hps & _ & _).
  rewrite <- Hps in Hp. rewrite <- He in Hl.
  split; [exact Hp|].
  unfold emit_data. rewrite Hl. cbn [call_listeners].
  unfold run_listener. cbn [listener_accepts bind listener_promise].
  rewrite Hacc. cbn [bind].
  eexists. split; [reflexivity|]. unfold resolve.
  split; [apply settle_pending; exact Hp|].
  destruct (settle_frame p (Fulfilled frame) (stopPoll s2)) as (-> & _).
  split; [reflexivity|].
  unfold settle. destruct (promises (stopPoll s2) !! p) as [[]|]; reflexivity.
Qed.

Lemma getDeviceInfo_survives_writes_witness :
  exists s1 s2 s3,
    getDeviceInfo sample_API init = Ok (s1, 0%nat)
    /\ run sample_API true
           (Invoke <$> [SetColorNoFade 255 0 0 9; Strobe 1 2 3 4 5 6]) s1 = Ok s2
    /\ emit_data sample_API [128; 2; 0; 1] s2 = Ok s3
    /\ promises s3 !! 0%nat = Some (Fulfilled [128; 2; 0; 1]).
Proof.
  let r := eval vm_compute in (getDeviceInfo sample_API init) in
  match r with Ok (?x, _) => pose (s1 := x) end.
  let r := eval vm_compute in
    (run sample_API true
         (Invoke <$> [SetColorNoFade 255 0 0 9; Strobe 1 2 3 4 5 6]) s1) in
  match r with Ok ?x => pose (s2 := x) end.
  assert (Hg : getDeviceInfo sample_API init = Ok (s1, 0%nat)) by reflexivity.
  assert (Hr : run sample_API true
                   (Invoke <$> [SetColorNoFade 255 0 0 9; Strobe 1 2 3 4 5 6])
                   s1 = Ok s2) by reflexivity.
  destruct (getDeviceInfo_survives_writes sample_API true init s1 s2 0
              [SetColorNoFade 255 0 0 9; Strobe 1 2 3 4 5 6] [128; 2; 0; 1]
              Hg) as (_ & s3 & H1 & H2 & _); [|exact Hr|reflexivity|].
  - repeat constructor; discriminate.
  - exists s1, s2, s3. auto.
Defined.
